(** * can_fuzzy_dataset: a shallow embedding of [main.go]

    The generator of a labelled CAN dataset: a record generator that keeps
    two global counters, a table of payload generators (the DBC), a
    timestamp formatter and the loop that writes the rows of a CSV file.

    Everything the Go program takes from outside (the stream of [math/rand],
    the iteration order of a map, the wall clock, the answers of the file
    system) is read from an oracle, [Env], so every theorem below that
    quantifies over the world quantifies over every behaviour of these. *)

From Stdlib Require Import ZArith String Ascii List Bool Lia Permutation.
Import ListNotations.
Open Scope Z_scope.

(** ** Machine integers *)

(** Go's [int] and [int64] (64 bits, two's complement): arithmetic wraps. *)
Definition int_wrap (z : Z) : Z := (z + 2 ^ 63) mod 2 ^ 64 - 2 ^ 63.

(** The conversions [byte(x)] and [uint32(x)] keep the low bits. *)
Definition to_byte (z : Z) : Z := z mod 256.
Definition to_uint32 (z : Z) : Z := z mod 2 ^ 32.

(** ** Constants for data generation *)

Definition TotalRecords : Z := 3838860.
Definition NormalCount : Z := 3347013.
Definition InjectedCount : Z := 491847.
Definition DataLength : Z := 8.

(** ** The world *)

(** What the environment answers. [rand_raw] is the raw output of the
    [math/rand] source, [map_raw] the seed the runtime uses to order a map
    iteration, [clock_ns] the successive readings of the wall clock in
    nanoseconds since the Unix epoch, [create_err] the error of [os.Create]
    (if any) and [write_err k] the error of the [k]-th call of
    [writer.Write] (if any). *)
Record Env : Type := mkEnv {
  rand_raw : nat -> Z;
  map_raw : nat -> Z;
  clock_ns : nat -> Z;
  create_err : option string;
  write_err : nat -> option string
}.

(** The mutable state: the two package-level counters, the positions in
    the oracles, the rows the CSV writer accepted (oldest first) and the
    text printed on standard output. *)
Record World : Type := mkWorld {
  env : Env;
  normalMessages : Z;
  injectedMessages : Z;
  rand_pos : nat;
  map_pos : nat;
  clock_pos : nat;
  write_calls : nat;
  rows : list (list string);
  stdout : string
}.

(** Package initialisation: [var normalMessages, injectedMessages int] are
    zero, nothing was drawn, written or printed. *)
Definition initial_world (e : Env) : World :=
  mkWorld e 0 0 0%nat 0%nat 0%nat 0%nat [] "".

Definition set_normalMessages (v : Z) (w : World) : World :=
  mkWorld (env w) v (injectedMessages w) (rand_pos w) (map_pos w)
          (clock_pos w) (write_calls w) (rows w) (stdout w).

Definition set_injectedMessages (v : Z) (w : World) : World :=
  mkWorld (env w) (normalMessages w) v (rand_pos w) (map_pos w)
          (clock_pos w) (write_calls w) (rows w) (stdout w).

Definition set_rand_pos (p : nat) (w : World) : World :=
  mkWorld (env w) (normalMessages w) (injectedMessages w) p (map_pos w)
          (clock_pos w) (write_calls w) (rows w) (stdout w).

Definition set_map_pos (p : nat) (w : World) : World :=
  mkWorld (env w) (normalMessages w) (injectedMessages w) (rand_pos w) p
          (clock_pos w) (write_calls w) (rows w) (stdout w).

Definition set_clock_pos (p : nat) (w : World) : World :=
  mkWorld (env w) (normalMessages w) (injectedMessages w) (rand_pos w)
          (map_pos w) p (write_calls w) (rows w) (stdout w).

Definition set_write_calls (p : nat) (w : World) : World :=
  mkWorld (env w) (normalMessages w) (injectedMessages w) (rand_pos w)
          (map_pos w) (clock_pos w) p (rows w) (stdout w).

Definition set_rows (r : list (list string)) (w : World) : World :=
  mkWorld (env w) (normalMessages w) (injectedMessages w) (rand_pos w)
          (map_pos w) (clock_pos w) (write_calls w) r (stdout w).

Definition set_stdout (s : string) (w : World) : World :=
  mkWorld (env w) (normalMessages w) (injectedMessages w) (rand_pos w)
          (map_pos w) (clock_pos w) (write_calls w) (rows w) s.

(** ** A state and panic monad *)

(** A Go function runs in a world and either returns a value and the new
    world, or panics ([None]). *)
Definition M (A : Type) : Type := World -> option (A * World).

Definition ret {A : Type} (a : A) : M A := fun w => Some (a, w).

Definition bind {A B : Type} (m : M A) (f : A -> M B) : M B :=
  fun w => match m w with
           | Some (a, w') => f a w'
           | None => None
           end.

Definition panic {A : Type} : M A := fun _ => None.

Definition gets {A : Type} (f : World -> A) : M A := fun w => Some (f w, w).

Definition modify (f : World -> World) : M unit := fun w => Some (tt, f w).

Definition lift_option {A : Type} (o : option A) : M A :=
  match o with
  | Some a => ret a
  | None => panic
  end.

Declare Scope go_scope.
Delimit Scope go_scope with go.
Notation "x <- m ;; k" := (bind m (fun x => k))
  (at level 61, m at next level, right associativity) : go_scope.
Notation "m ;;; k" := (bind m (fun _ => k))
  (at level 61, right associativity) : go_scope.
Open Scope go_scope.

(** ** math/rand *)

(** The next raw value of the source. *)
Definition rand_next : M Z :=
  fun w => Some (rand_raw (env w) (rand_pos w), set_rand_pos (S (rand_pos w)) w).

(** [rand.Intn(n)]: panics when [n <= 0], else a value of [[0, n)]. *)
Definition Intn (n : Z) : M Z :=
  if n <=? 0 then panic else r <- rand_next ;; ret (r mod n).

(** [rand.Float64()]: a value of [[0.0, 1.0)], kept as the numerator [k]
    of the fraction [k / 2^53]. *)
Definition Float64 : M Z :=
  r <- rand_next ;; ret (r mod 2 ^ 53).

(** The comparison [f < 0.5] on such a numerator. *)
Definition lt_half (k : Z) : bool := k <? 2 ^ 52.

(** ** Helpers of the generator *)

(** [fluctuate(min, max) = min + rand.Intn(max-min+1)]. *)
Definition fluctuate (min max : Z) : M Z :=
  r <- Intn (int_wrap (int_wrap (max - min) + 1)) ;;
  ret (int_wrap (min + r)).

(** [toggleOnOff()]: 1 for on, 0 for off. *)
Definition toggleOnOff : M Z :=
  f <- Float64 ;;
  if lt_half f then ret 1 else ret 0.

(** ** The DBC table *)

(** A [[8]byte] value is a list of eight bytes. *)
Definition zero_data : list Z := [0; 0; 0; 0; 0; 0; 0; 0].

(** The map literal, in source order. The calls inside a composite literal
    are evaluated from left to right. *)
Definition DBC : list (Z * M (list Z)) :=
  [ (0x100, v <- toggleOnOff ;; ret [to_byte v; 0; 0; 0; 0; 0; 0; 0]);
    (0x101, v <- toggleOnOff ;; ret [to_byte v; 0; 0; 0; 0; 0; 0; 0]);
    (0x200, v <- fluctuate 80 100 ;; ret [to_byte v; 0; 0; 0; 0; 0; 0; 0]);
    (0x201, v <- fluctuate 60 90 ;; ret [to_byte v; 0; 0; 0; 0; 0; 0; 0]);
    (0x202, v <- fluctuate 90 100 ;; ret [to_byte v; 0; 0; 0; 0; 0; 0; 0]);
    (0x203, v <- fluctuate 60 80 ;; ret [to_byte v; 0; 0; 0; 0; 0; 0; 0]);
    (0x204, v <- fluctuate 40 60 ;; ret [to_byte v; 0; 0; 0; 0; 0; 0; 0]);
    (0x205, a <- fluctuate 2500 3000 ;;
            b <- fluctuate 2500 3000 ;;
            ret [to_byte (Z.shiftr a 8); to_byte (Z.land b 0xFF);
                 0; 0; 0; 0; 0; 0]) ].

(** The key set of the table. *)
Definition dbc_keys : list Z := map fst DBC.

(** [DBC[k]]: the generator stored under [k], if any. *)
Fixpoint map_get {V : Type} (m : list (Z * V)) (k : Z) : option V :=
  match m with
  | [] => None
  | (k', v) :: m' => if k =? k' then Some v else map_get m' k
  end.

(** Calling [DBC[k]()]: a missing key gives a nil function, whose call
    panics. *)
Definition call_DBC (k : Z) : M (list Z) :=
  match map_get DBC k with
  | Some gen => gen
  | None => panic
  end.

(** The order of a [range] over a map is not specified. The runtime's seed
    is decoded as a permutation: the head is inserted at position
    [seed mod (length + 1)] of the permuted tail, so every order occurs
    for some seed. *)
Fixpoint insert_at {A : Type} (n : nat) (x : A) (l : list A) : list A :=
  match n, l with
  | O, _ => x :: l
  | S _, [] => [x]
  | S n', y :: l' => y :: insert_at n' x l'
  end.

Fixpoint permute {A : Type} (seed : Z) (l : list A) : list A :=
  match l with
  | [] => []
  | x :: l' =>
      let k := Z.of_nat (S (length l')) in
      insert_at (Z.to_nat (seed mod k)) x (permute (seed / k) l')
  end.

(** [for k := range DBC { dbcKeys = append(dbcKeys, k) }]. *)
Definition range_keys : M (list Z) :=
  fun w => Some (permute (map_raw (env w) (map_pos w)) dbc_keys,
                 set_map_pos (S (map_pos w)) w).

(** [s[i]] on a slice: panics out of range. *)
Definition index {A : Type} (l : list A) (i : Z) : M A :=
  if (i <? 0) || (Z.of_nat (length l) <=? i) then panic
  else lift_option (nth_error l (Z.to_nat i)).

(** [a[i] = v] on an array: panics out of range. *)
Fixpoint list_set {A : Type} (l : list A) (n : nat) (v : A) : list A :=
  match l, n with
  | [], _ => []
  | _ :: l', O => v :: l'
  | x :: l', S n' => x :: list_set l' n' v
  end.

Definition assign {A : Type} (l : list A) (i : Z) (v : A) : M (list A) :=
  if (i <? 0) || (Z.of_nat (length l) <=? i) then panic
  else ret (list_set l (Z.to_nat i) v).

(** ** generateCANData *)

(** [for i := 0; i < DataLength; i++ { data[i] = byte(rand.Intn(256)) }],
    with [n] iterations left. *)
Fixpoint fill_random (n : nat) (i : Z) (data : list Z) : M (list Z) :=
  match n with
  | O => ret data
  | S n' =>
      r <- Intn 256 ;;
      data' <- assign data i (to_byte r) ;;
      fill_random n' (i + 1) data'
  end.

(** The test of the first branch. [&&] and [||] short-circuit: the coin is
    only drawn when both counters are below their targets. *)
Definition inject_test : M bool :=
  inj <- gets injectedMessages ;;
  if inj <? InjectedCount then
    nor <- gets normalMessages ;;
    if nor >=? NormalCount then ret true
    else f <- Float64 ;; ret (lt_half f)
  else ret false.

Definition generateCANData : M (Z * list Z * string) :=
  c <- inject_test ;;
  if c then
    r <- Intn (0x300 - 0x206) ;;
    let canID := to_uint32 (int_wrap (r + 0x206)) in
    data <- fill_random (Z.to_nat DataLength) 0 zero_data ;;
    inj <- gets injectedMessages ;;
    modify (set_injectedMessages (int_wrap (inj + 1))) ;;;
    ret (canID, data, "T"%string)
  else
    nor <- gets normalMessages ;;
    if nor <? NormalCount then
      dbcKeys <- range_keys ;;
      i <- Intn (Z.of_nat (length dbcKeys)) ;;
      canID <- index dbcKeys i ;;
      data <- call_DBC canID ;;
      nor' <- gets normalMessages ;;
      modify (set_normalMessages (int_wrap (nor' + 1))) ;;;
      ret (canID, data, "R"%string)
    else
      ret (0, zero_data, ""%string).

(** A run of [n] successive calls, with the records in the order they
    were returned. *)
Fixpoint run_calls (n : nat) : M (list (Z * list Z * string)) :=
  match n with
  | O => ret []
  | S n' =>
      r <- generateCANData ;;
      rs <- run_calls n' ;;
      ret (r :: rs)
  end.

(** ** fmt and strconv *)

Module Fmt.

(** The character of a digit, upper case above nine. *)
Definition digit_char (d : Z) : ascii :=
  if d <? 10 then ascii_of_nat (48 + Z.to_nat d)
  else ascii_of_nat (55 + Z.to_nat d).

(** The digits of a non-negative number, most significant first. The fuel
    bounds the number of digits; 64 is enough for any 64-bit value in any
    base. *)
Fixpoint digits (fuel : nat) (base n : Z) : string :=
  match fuel with
  | O => EmptyString
  | S fuel' =>
      if n <? base then String (digit_char n) EmptyString
      else (digits fuel' base (n / base)
            ++ String (digit_char (n mod base)) EmptyString)%string
  end.

Definition unsigned (base n : Z) : string := digits 64 base n.

Fixpoint zeros (n : nat) : string :=
  match n with
  | O => EmptyString
  | S n' => String "0"%char (zeros n')
  end.

Definition sign (n : Z) : string := if n <? 0 then "-"%string else ""%string.

(** [%d] and [strconv.Itoa]. *)
Definition d (n : Z) : string := (sign n ++ unsigned 10 (Z.abs n))%string.

(** [%0wd] and [%0wX]: zeros between the sign and the digits up to the
    width [w]; longer numbers are not cut. *)
Definition pad0 (w : nat) (base n : Z) : string :=
  let ds := unsigned base (Z.abs n) in
  (sign n ++ zeros (w - String.length (sign n) - String.length ds) ++ ds)%string.

(** [%X] *)
Definition X (n : Z) : string := (sign n ++ unsigned 16 (Z.abs n))%string.

End Fmt.

(** ** formatTimestamp *)

(** A [time.Time]: whole seconds since the Unix epoch (rounded down) and
    the nanoseconds within the second. *)
Record Time : Type := mkTime { unix_sec : Z; nsec : Z }.

(** [time.Now()]: one reading of the wall clock. *)
Definition time_Now : M Time :=
  fun w =>
    let t := clock_ns (env w) (clock_pos w) in
    Some (mkTime (int_wrap (t / 10 ^ 9)) (t mod 10 ^ 9),
          set_clock_pos (S (clock_pos w)) w).

(** [t.Unix()] *)
Definition Unix (t : Time) : Z := unix_sec t.

(** [t.UnixMicro() = t.unixSec()*1e6 + int64(t.nsec())/1e3] *)
Definition UnixMicro (t : Time) : Z :=
  int_wrap (int_wrap (unix_sec t * 10 ^ 6) + nsec t / 10 ^ 3).

Definition formatTimestamp : M string :=
  now <- time_Now ;;
  let seconds := Unix now in
  let microseconds := int_wrap (UnixMicro now - int_wrap (seconds * 10 ^ 6)) in
  ret (Fmt.d seconds ++ "." ++ Fmt.pad0 6 10 microseconds)%string.

(** ** generateDataset *)

(** [os.Create(filename)]: the error, if any. *)
Definition os_Create (filename : string) : M (option string) :=
  gets (fun w => create_err (env w)).

(** [writer.Write(record)]: the row is accepted, or the error is returned
    and nothing is added. *)
Definition writer_Write (record : list string) : M (option string) :=
  fun w =>
    let k := write_calls w in
    match write_err (env w) k with
    | Some e => Some (Some e, set_write_calls (S k) w)
    | None => Some (None, set_rows (rows w ++ [record]) (set_write_calls (S k) w))
    end.

(** The row of one record. *)
Definition csv_record (timestamp : string) (canID : Z) (data : list Z)
    (flag : string) : list string :=
  [timestamp; Fmt.X canID; Fmt.d DataLength]
    ++ map (Fmt.pad0 2 16) data ++ [flag].

(** [for i := 0; i < TotalRecords; i++ { ... }] with [n] iterations left.
    The result is the error returned by [generateDataset], [None] for
    [nil]. The progress bar is display only and left out. *)
Fixpoint write_loop (n : nat) : M (option string) :=
  match n with
  | O => ret None
  | S n' =>
      timestamp <- formatTimestamp ;;
      r <- generateCANData ;;
      let '(canID, data, flag) := r in
      err <- writer_Write (csv_record timestamp canID data flag) ;;
      match err with
      | Some e => ret (Some ("could not write record: " ++ e)%string)
      | None => write_loop n'
      end
  end.

Definition generateDataset (filename : string) : M (option string) :=
  err <- os_Create filename ;;
  match err with
  | Some e => ret (Some ("could not create file: " ++ e)%string)
  | None => write_loop (Z.to_nat TotalRecords)
  end.

(** ** main *)

Definition newline : string := String (ascii_of_nat 10) EmptyString.

(** [fmt.Printf] writes on standard output. *)
Definition Printf (s : string) : M unit :=
  modify (fun w => set_stdout (stdout w ++ s)%string w).

Definition error_message (e : string) : string :=
  ("Error generating dataset: " ++ e ++ newline)%string.

Definition success_message (filename : string) : string :=
  (newline ++ "Dataset generated successfully and saved to " ++ filename
   ++ newline)%string.

(** [rand.Seed] only picks the stream, which is the oracle's already. *)
Definition main : M unit :=
  let filename := "Fuzzy_dataset.csv"%string in
  err <- generateDataset filename ;;
  match err with
  | Some e => Printf (error_message e)
  | None => Printf (success_message filename)
  end.

(** The exit status of the process: 0 when [main] returns, 2 when the
    program panics. The program never calls [os.Exit]. *)
Definition exit_status {A : Type} (r : option (A * World)) : Z :=
  match r with
  | Some _ => 0
  | None => 2
  end.

(** * Reasoning about the model *)

(** ** Wrap-around *)

Lemma int_wrap_small (z : Z) :
  - 2 ^ 63 <= z < 2 ^ 63 -> int_wrap z = z.
Proof.
  intros H. unfold int_wrap.
  rewrite Z.mod_small; lia.
Qed.

Lemma int_wrap_range (z : Z) : - 2 ^ 63 <= int_wrap z < 2 ^ 63.
Proof.
  unfold int_wrap.
  pose proof (Z.mod_pos_bound (z + 2 ^ 63) (2 ^ 64)). lia.
Qed.

Lemma int_wrap_add_mul (z k : Z) : int_wrap (z + k * 2 ^ 64) = int_wrap z.
Proof.
  unfold int_wrap.
  replace (z + k * 2 ^ 64 + 2 ^ 63) with (z + 2 ^ 63 + k * 2 ^ 64) by ring.
  now rewrite Z.mod_add by lia.
Qed.

Lemma int_wrap_eqm (z : Z) : exists k, int_wrap z = z + k * 2 ^ 64.
Proof.
  exists (- ((z + 2 ^ 63) / 2 ^ 64)). unfold int_wrap.
  pose proof (Z.div_mod (z + 2 ^ 63) (2 ^ 64)). lia.
Qed.

(** ** Total-correctness triples *)

(** [returns m w Q]: run in [w], [m] does not panic, and its result and
    final world satisfy [Q]. *)
Definition returns {A : Type} (m : M A) (w : World)
    (Q : A -> World -> Prop) : Prop :=
  exists a w', m w = Some (a, w') /\ Q a w'.

Lemma returns_ret {A : Type} (a : A) (w : World) (Q : A -> World -> Prop) :
  Q a w -> returns (ret a) w Q.
Proof. intros H. exists a, w. now split. Qed.

Lemma returns_bind {A B : Type} (m : M A) (f : A -> M B) (w : World)
    (Q : B -> World -> Prop) :
  returns m w (fun a w1 => returns (f a) w1 Q) -> returns (bind m f) w Q.
Proof.
  intros (a & w1 & Hm & b & w2 & Hf & HQ).
  exists b, w2. split; [| exact HQ].
  unfold bind. now rewrite Hm.
Qed.

Lemma returns_conseq {A : Type} (m : M A) (w : World)
    (P Q : A -> World -> Prop) :
  returns m w P -> (forall a w', P a w' -> Q a w') -> returns m w Q.
Proof.
  intros (a & w' & Hm & HP) HPQ. exists a, w'. auto.
Qed.

Lemma returns_gets {A : Type} (f : World -> A) (w : World)
    (Q : A -> World -> Prop) :
  Q (f w) w -> returns (gets f) w Q.
Proof. intros H. exists (f w), w. now split. Qed.

Lemma returns_modify (f : World -> World) (w : World)
    (Q : unit -> World -> Prop) :
  Q tt (f w) -> returns (modify f) w Q.
Proof. intros H. exists tt, (f w). now split. Qed.

Lemma returns_inv {A : Type} (m : M A) (w : World) (Q : A -> World -> Prop)
    (a : A) (w' : World) :
  returns m w Q -> m w = Some (a, w') -> Q a w'.
Proof.
  intros (a0 & w0 & Hm & HQ) E. rewrite E in Hm.
  now inversion Hm; subst.
Qed.

(** ** The random source *)

(** The raw value [k] draws ahead of the current position. *)
Definition raw_at (w : World) (k : nat) : Z :=
  rand_raw (env w) (rand_pos w + k).

(** The world after [k] more draws. *)
Definition drawn (k : nat) (w : World) : World :=
  set_rand_pos (rand_pos w + k) w.

Lemma drawn_drawn (j k : nat) (w : World) :
  drawn k (drawn j w) = drawn (j + k) w.
Proof.
  unfold drawn, set_rand_pos. simpl. f_equal. lia.
Qed.

Lemma raw_at_drawn (j k : nat) (w : World) :
  raw_at (drawn j w) k = raw_at w (j + k).
Proof.
  unfold raw_at, drawn. simpl. f_equal. lia.
Qed.

Lemma rand_next_eq (w : World) :
  rand_next w = Some (raw_at w 0, drawn 1 w).
Proof.
  unfold rand_next, raw_at, drawn.
  now rewrite Nat.add_0_r, Nat.add_1_r.
Qed.

Lemma Intn_eq (n : Z) (w : World) :
  0 < n -> Intn n w = Some (raw_at w 0 mod n, drawn 1 w).
Proof.
  intros Hn. unfold Intn.
  destruct (n <=? 0) eqn:E; [apply Z.leb_le in E; lia |].
  unfold bind. now rewrite rand_next_eq.
Qed.

Lemma Float64_eq (w : World) :
  Float64 w = Some (raw_at w 0 mod 2 ^ 53, drawn 1 w).
Proof.
  unfold Float64, bind. now rewrite rand_next_eq.
Qed.

(** The coin that [rand.Float64() < 0.5] reads in [w]. *)
Definition coin (w : World) : bool := lt_half (raw_at w 0 mod 2 ^ 53).

Lemma toggleOnOff_eq (w : World) :
  toggleOnOff w = Some (if coin w then 1 else 0, drawn 1 w).
Proof.
  unfold toggleOnOff, bind, coin. rewrite Float64_eq.
  now destruct (lt_half _).
Qed.

Lemma fluctuate_eq (lo hi : Z) (w : World) :
  0 <= lo -> lo <= hi -> hi < 2 ^ 62 ->
  fluctuate lo hi w = Some (lo + raw_at w 0 mod (hi - lo + 1), drawn 1 w).
Proof.
  intros H0 H1 H2. unfold fluctuate, bind.
  rewrite (int_wrap_small (hi - lo)) by lia.
  rewrite (int_wrap_small (hi - lo + 1)) by lia.
  rewrite Intn_eq by lia. unfold ret.
  pose proof (Z.mod_pos_bound (raw_at w 0) (hi - lo + 1)).
  rewrite int_wrap_small by lia. reflexivity.
Qed.

Lemma fluctuate_range (lo hi : Z) (w : World) :
  0 <= lo -> lo <= hi -> hi < 2 ^ 62 ->
  returns (fluctuate lo hi) w (fun v w' => lo <= v <= hi /\ w' = drawn 1 w).
Proof.
  intros H0 H1 H2. eexists _, _. split; [now apply fluctuate_eq |].
  pose proof (Z.mod_pos_bound (raw_at w 0) (hi - lo + 1)). split; [lia | easy].
Qed.

(** ** Worlds that differ by draws only *)

(** [advanced w w']: [w'] is [w] after some draws from the random source
    and some map iterations; nothing else moved. *)
Inductive advanced (w : World) : World -> Prop :=
| adv_refl : advanced w w
| adv_rand (w1 : World) (k : nat) :
    advanced w w1 -> advanced w (drawn k w1)
| adv_map (w1 : World) :
    advanced w w1 -> advanced w (set_map_pos (S (map_pos w1)) w1).

(** What no step of the generator touches: the oracle, the clock position
    and the output. *)
Definition quiet (w w' : World) : Prop :=
  env w' = env w /\ clock_pos w' = clock_pos w
  /\ write_calls w' = write_calls w /\ rows w' = rows w
  /\ stdout w' = stdout w.

Lemma quiet_refl (w : World) : quiet w w.
Proof. repeat split. Qed.

Lemma quiet_trans (w1 w2 w3 : World) :
  quiet w1 w2 -> quiet w2 w3 -> quiet w1 w3.
Proof.
  unfold quiet. intros (a1 & a2 & a3 & a4 & a5) (b1 & b2 & b3 & b4 & b5).
  repeat split; congruence.
Qed.

Lemma advanced_quiet (w w' : World) : advanced w w' -> quiet w w'.
Proof.
  induction 1 as [| w1 k _ IH | w1 _ IH].
  - apply quiet_refl.
  - apply (quiet_trans _ _ _ IH). repeat split.
  - apply (quiet_trans _ _ _ IH). repeat split.
Qed.

Lemma advanced_counters (w w' : World) :
  advanced w w' ->
  normalMessages w' = normalMessages w
  /\ injectedMessages w' = injectedMessages w.
Proof.
  induction 1 as [| w1 k _ IH | w1 _ IH]; simpl; auto.
Qed.

Lemma advanced_rand_pos (w w' : World) :
  advanced w w' -> (rand_pos w <= rand_pos w')%nat.
Proof.
  induction 1 as [| w1 k _ IH | w1 _ IH]; simpl; lia.
Qed.

Lemma advanced_trans (w1 w2 w3 : World) :
  advanced w1 w2 -> advanced w2 w3 -> advanced w1 w3.
Proof.
  intros H12 H23. induction H23; auto using adv_rand, adv_map.
Qed.

(** ** The map iteration *)

Lemma insert_at_perm {A : Type} (x : A) (l : list A) (n : nat) :
  Permutation (insert_at n x l) (x :: l).
Proof.
  revert n. induction l as [| y l IH]; intros [| n]; simpl; auto.
  rewrite IH. apply perm_swap.
Qed.

Lemma permute_perm {A : Type} (l : list A) (seed : Z) :
  Permutation (permute seed l) l.
Proof.
  revert seed. induction l as [| x l IH]; intros seed; simpl; auto.
  rewrite insert_at_perm. now constructor.
Qed.

Lemma range_keys_returns (w : World) :
  returns range_keys w
    (fun keys w' => Permutation keys dbc_keys
                    /\ w' = set_map_pos (S (map_pos w)) w).
Proof.
  eexists _, _. split; [reflexivity |]. split; [apply permute_perm | easy].
Qed.

Lemma index_returns {A : Type} (l : list A) (i : Z) (w : World) :
  0 <= i < Z.of_nat (length l) ->
  returns (index l i) w (fun x w' => In x l /\ w' = w).
Proof.
  intros Hi. unfold index.
  destruct (i <? 0) eqn:E1; [apply Z.ltb_lt in E1; lia |].
  destruct (Z.of_nat (length l) <=? i) eqn:E2; [apply Z.leb_le in E2; lia |].
  simpl. destruct (nth_error l (Z.to_nat i)) as [x |] eqn:E.
  - exists x, w. split; [reflexivity |]. split; [| reflexivity].
    eapply nth_error_In; eauto.
  - apply nth_error_None in E. lia.
Qed.

(** ** The payload generators *)

(** The identifiers whose generator is [fluctuate(lo, hi)] on one byte,
    with their bounds. *)
Definition dbc_ranges : list (Z * (Z * Z)) :=
  [ (0x200, (80, 100)); (0x201, (60, 90)); (0x202, (90, 100));
    (0x203, (60, 80)); (0x204, (40, 60)) ].

(** What each generator of the table returns, from the draws it reads. *)
Inductive dbc_payload (w : World) : Z -> list Z -> World -> Prop :=
| payload_toggle (id : Z) :
    id = 0x100 \/ id = 0x101 ->
    dbc_payload w id
      [to_byte (if coin w then 1 else 0); 0; 0; 0; 0; 0; 0; 0] (drawn 1 w)
| payload_range (id lo hi : Z) :
    In (id, (lo, hi)) dbc_ranges ->
    dbc_payload w id
      [to_byte (lo + raw_at w 0 mod (hi - lo + 1)); 0; 0; 0; 0; 0; 0; 0]
      (drawn 1 w)
| payload_rpm :
    dbc_payload w 0x205
      [to_byte (Z.shiftr (2500 + raw_at w 0 mod 501) 8);
       to_byte (Z.land (2500 + raw_at w 1 mod 501) 0xFF);
       0; 0; 0; 0; 0; 0]
      (drawn 2 w).

Ltac run_fluctuate :=
  unfold bind; rewrite fluctuate_eq by lia; unfold ret.

Lemma call_DBC_returns (k : Z) (w : World) :
  In k dbc_keys -> returns (call_DBC k) w (dbc_payload w k).
Proof.
  intros Hk. unfold returns.
  simpl in Hk.
  destruct Hk as [<- | [<- | [<- | [<- | [<- | [<- | [<- | [<- | []]]]]]]]];
    unfold call_DBC; cbn [map_get DBC Z.eqb Pos.eqb].
  - unfold bind. rewrite toggleOnOff_eq. eexists _, _. split; [reflexivity |].
    apply payload_toggle. now left.
  - unfold bind. rewrite toggleOnOff_eq. eexists _, _. split; [reflexivity |].
    apply payload_toggle. now right.
  - run_fluctuate. eexists _, _. split; [reflexivity |].
    apply (payload_range w 0x200 80 100). simpl; tauto.
  - run_fluctuate. eexists _, _. split; [reflexivity |].
    apply (payload_range w 0x201 60 90). simpl; tauto.
  - run_fluctuate. eexists _, _. split; [reflexivity |].
    apply (payload_range w 0x202 90 100). simpl; tauto.
  - run_fluctuate. eexists _, _. split; [reflexivity |].
    apply (payload_range w 0x203 60 80). simpl; tauto.
  - run_fluctuate. eexists _, _. split; [reflexivity |].
    apply (payload_range w 0x204 40 60). simpl; tauto.
  - run_fluctuate. rewrite fluctuate_eq by lia.
    eexists _, _. split; [reflexivity |].
    rewrite drawn_drawn, raw_at_drawn. apply payload_rpm.
Qed.

Lemma dbc_payload_advanced (w w' : World) (k : Z) (data : list Z) :
  dbc_payload w k data w' -> advanced w w'.
Proof.
  destruct 1; apply adv_rand, adv_refl.
Qed.

(** ** The random payload of an injected record *)

Definition is_byte (b : Z) : Prop := 0 <= b < 256.

Lemma to_byte_is_byte (z : Z) : is_byte (to_byte z).
Proof. unfold is_byte, to_byte. apply Z.mod_pos_bound. lia. Qed.

Lemma to_byte_small (z : Z) : 0 <= z < 256 -> to_byte z = z.
Proof. intros H. unfold to_byte. now apply Z.mod_small. Qed.

Lemma list_set_length {A : Type} (l : list A) (n : nat) (v : A) :
  length (list_set l n v) = length l.
Proof.
  revert n. induction l as [| x l IH]; intros [| n]; simpl; auto.
Qed.

Lemma list_set_Forall {A : Type} (P : A -> Prop) (l : list A) (n : nat) (v : A) :
  Forall P l -> P v -> Forall P (list_set l n v).
Proof.
  intros Hl Hv. revert n.
  induction Hl as [| x l Hx Hl IH]; intros [| n]; simpl; auto.
Qed.

Lemma assign_returns {A : Type} (l : list A) (i : Z) (v : A) (w : World)
    (Q : list A -> World -> Prop) :
  0 <= i < Z.of_nat (length l) ->
  Q (list_set l (Z.to_nat i) v) w -> returns (assign l i v) w Q.
Proof.
  intros Hi HQ. unfold assign.
  destruct (i <? 0) eqn:E1; [apply Z.ltb_lt in E1; lia |].
  destruct (Z.of_nat (length l) <=? i) eqn:E2; [apply Z.leb_le in E2; lia |].
  now apply returns_ret.
Qed.

Lemma Intn_returns (n : Z) (w : World) (Q : Z -> World -> Prop) :
  0 < n -> Q (raw_at w 0 mod n) (drawn 1 w) -> returns (Intn n) w Q.
Proof.
  intros Hn HQ. eexists _, _. split; [now apply Intn_eq | exact HQ].
Qed.

Lemma fill_random_returns (n : nat) :
  forall (i : Z) (data : list Z) (w : World),
    0 <= i -> i + Z.of_nat n <= Z.of_nat (length data) ->
    Forall is_byte data ->
    returns (fill_random n i data) w
      (fun data' w' => length data' = length data /\ Forall is_byte data'
                       /\ w' = drawn n w).
Proof.
  induction n as [| n IH]; intros i data w Hi Hlen Hdata.
  - apply returns_ret. repeat split; auto.
    unfold drawn. rewrite Nat.add_0_r. now destruct w.
  - cbn [fill_random].
    apply returns_bind, Intn_returns; [lia |].
    apply returns_bind, assign_returns; [lia |].
    eapply returns_conseq.
    + apply IH; [lia | rewrite list_set_length; lia |].
      apply list_set_Forall; [assumption | apply to_byte_is_byte].
    + intros data' w' (H1 & H2 & H3). rewrite list_set_length in H1.
      repeat split; auto. now rewrite H3, drawn_drawn.
Qed.

(** ** One call of generateCANData *)

(** The branch the first test takes in [w]. *)
Definition inject_decision (w : World) : bool :=
  (injectedMessages w <? InjectedCount)
  && ((normalMessages w >=? NormalCount) || coin w).

Lemma Float64_returns (w : World) (Q : Z -> World -> Prop) :
  Q (raw_at w 0 mod 2 ^ 53) (drawn 1 w) -> returns Float64 w Q.
Proof.
  intros HQ. eexists _, _. split; [apply Float64_eq | exact HQ].
Qed.

Lemma inject_test_returns (w : World) :
  returns inject_test w
    (fun c w1 => c = inject_decision w /\ advanced w w1).
Proof.
  unfold inject_test, inject_decision.
  apply returns_bind, returns_gets.
  destruct (injectedMessages w <? InjectedCount); cbn [andb].
  - apply returns_bind, returns_gets.
    destruct (normalMessages w >=? NormalCount); cbn [orb].
    + apply returns_ret. split; [reflexivity | constructor].
    + apply returns_bind, Float64_returns, returns_ret.
      split; [reflexivity | apply adv_rand, adv_refl].
  - apply returns_ret. split; [reflexivity | constructor].
Qed.

(** The three ways a call can end. [w1] is the world in which the
    identifier is drawn, [w2] the one in which the payload generator of a
    normal record is called. *)
Inductive outcome (w : World) : Z * list Z * string -> World -> Prop :=
| outcome_injected (r : Z) (data : list Z) (w1 w2 : World) :
    inject_decision w = true ->
    advanced w w1 ->
    r = raw_at w1 0 mod 250 ->
    length data = 8%nat ->
    Forall is_byte data ->
    w2 = drawn 9 w1 ->
    outcome w (r + 0x206, data, "T"%string)
      (set_injectedMessages (int_wrap (injectedMessages w + 1)) w2)
| outcome_normal (canID : Z) (data : list Z) (w1 w2 : World) :
    inject_decision w = false ->
    normalMessages w < NormalCount ->
    In canID dbc_keys ->
    advanced w w1 ->
    dbc_payload w1 canID data w2 ->
    outcome w (canID, data, "R"%string)
      (set_normalMessages (int_wrap (normalMessages w + 1)) w2)
| outcome_empty (w1 : World) :
    inject_decision w = false ->
    NormalCount <= normalMessages w ->
    advanced w w1 ->
    outcome w (0, zero_data, ""%string) w1.

Lemma dbc_keys_length (l : list Z) :
  Permutation l dbc_keys -> Z.of_nat (length l) = 8.
Proof.
  intros H. now rewrite (Permutation_length H).
Qed.

Lemma generateCANData_outcome (w : World) :
  returns generateCANData w (outcome w).
Proof.
  unfold generateCANData. apply returns_bind.
  eapply returns_conseq; [apply inject_test_returns |].
  intros c w1 (-> & Hadv).
  destruct (advanced_counters _ _ Hadv) as (Hn & Hi).
  destruct (inject_decision w) eqn:D.
  - apply returns_bind, Intn_returns; [lia |].
    apply returns_bind.
    eapply returns_conseq;
      [apply (fill_random_returns 8 0 zero_data); simpl; try lia;
       repeat constructor; unfold is_byte; lia |].
    intros data w2 (Hlen & Hbytes & ->).
    apply returns_bind, returns_gets, returns_bind, returns_modify, returns_ret.
    rewrite drawn_drawn. cbn [injectedMessages drawn set_rand_pos].
    rewrite Hi.
    pose proof (Z.mod_pos_bound (raw_at w1 0) 250 ltac:(lia)) as Hr.
    replace (768 - 518) with 250 in * by reflexivity.
    rewrite (int_wrap_small (raw_at w1 0 mod 250 + 518)) by lia.
    unfold to_uint32. rewrite Z.mod_small by lia.
    eapply outcome_injected; eauto.
  - apply returns_bind, returns_gets. rewrite Hn.
    destruct (normalMessages w <? NormalCount) eqn:E.
    + apply Z.ltb_lt in E.
      apply returns_bind.
      eapply returns_conseq; [apply range_keys_returns |].
      intros keys w2 (Hperm & ->).
      pose proof (dbc_keys_length _ Hperm) as Hlen.
      apply returns_bind, Intn_returns; [lia |].
      apply returns_bind.
      eapply returns_conseq;
        [apply index_returns; rewrite Hlen; apply Z.mod_pos_bound; lia |].
      intros canID w3 (Hin & ->).
      assert (Hkey : In canID dbc_keys)
        by (eapply Permutation_in; eauto).
      apply returns_bind.
      eapply returns_conseq; [apply call_DBC_returns; exact Hkey |].
      intros data w4 Hpay.
      apply returns_bind, returns_gets, returns_bind, returns_modify, returns_ret.
      destruct (advanced_counters _ _ (dbc_payload_advanced _ _ _ _ Hpay))
        as (Hn4 & _).
      rewrite Hn4. cbn [normalMessages drawn set_rand_pos set_map_pos].
      rewrite Hn.
      apply (outcome_normal w canID data
               (drawn 1 (set_map_pos (S (map_pos w1)) w1)) w4); auto.
      apply adv_rand, adv_map, Hadv.
    + apply Z.ltb_ge in E. apply returns_ret.
      now apply outcome_empty.
Qed.

(** ** The counters along a run *)

Definition flag_of (r : Z * list Z * string) : string := snd r.
Definition id_of (r : Z * list Z * string) : Z := fst (fst r).
Definition data_of (r : Z * list Z * string) : list Z := snd (fst r).

(** The number of records of a run that carry the label [f]. *)
Definition count_flag (f : string) (rs : list (Z * list Z * string)) : nat :=
  count_occ string_dec (map flag_of rs) f.

(** The counter invariant. *)
Definition counters_ok (w : World) : Prop :=
  0 <= normalMessages w <= NormalCount
  /\ 0 <= injectedMessages w <= InjectedCount.

(** How one call moves the counters. *)
Inductive counter_step (w : World) (r : Z * list Z * string) (w' : World)
  : Prop :=
| step_injected :
    flag_of r = "T"%string ->
    injectedMessages w' = injectedMessages w + 1 ->
    normalMessages w' = normalMessages w ->
    counter_step w r w'
| step_normal :
    flag_of r = "R"%string ->
    normalMessages w' = normalMessages w + 1 ->
    injectedMessages w' = injectedMessages w ->
    counter_step w r w'
| step_empty :
    flag_of r = ""%string ->
    NormalCount <= normalMessages w ->
    InjectedCount <= injectedMessages w ->
    normalMessages w' = normalMessages w ->
    injectedMessages w' = injectedMessages w ->
    counter_step w r w'.

Lemma inject_decision_true (w : World) :
  inject_decision w = true <->
  injectedMessages w < InjectedCount
  /\ (NormalCount <= normalMessages w \/ coin w = true).
Proof.
  unfold inject_decision.
  rewrite andb_true_iff, orb_true_iff, Z.ltb_lt, Z.geb_le. tauto.
Qed.

Lemma inject_decision_false (w : World) :
  inject_decision w = false ->
  normalMessages w < NormalCount \/ InjectedCount <= injectedMessages w.
Proof.
  unfold inject_decision. rewrite andb_false_iff, orb_false_iff.
  rewrite Z.ltb_ge, Z.geb_leb, Z.leb_gt. tauto.
Qed.

Lemma outcome_counter_step (w : World) (r : Z * list Z * string) (w' : World) :
  counters_ok w -> outcome w r w' ->
  counter_step w r w' /\ counters_ok w' /\ quiet w w'.
Proof.
  intros ((Hn0 & Hn1) & (Hi0 & Hi1)) Hout.
  destruct Hout as [r data w1 w2 D Hadv Hr Hlen Hbytes Hw2
                   | canID data w1 w2 D Hlt Hkey Hadv Hpay
                   | w1 D Hge Hadv].
  - apply inject_decision_true in D. destruct D as (Hlt & _).
    destruct (advanced_counters _ _ Hadv) as (En & Ei).
    destruct (advanced_quiet _ _ Hadv) as (q1 & q2 & q3 & q4 & q5).
    subst w2. cbn.
    rewrite int_wrap_small by (unfold InjectedCount in *; lia).
    split; [| split].
    + apply step_injected; cbn; [reflexivity | reflexivity | exact En].
    + unfold counters_ok. cbn. rewrite En. lia.
    + repeat split; cbn; assumption.
  - pose proof (dbc_payload_advanced _ _ _ _ Hpay) as Hadv2.
    pose proof (advanced_trans _ _ _ Hadv Hadv2) as Hadv'.
    destruct (advanced_counters _ _ Hadv') as (En & Ei).
    destruct (advanced_quiet _ _ Hadv') as (q1 & q2 & q3 & q4 & q5).
    rewrite int_wrap_small by (unfold NormalCount in *; lia).
    split; [| split].
    + apply step_normal; cbn; [reflexivity | reflexivity | exact Ei].
    + unfold counters_ok. cbn. rewrite Ei. lia.
    + repeat split; cbn; assumption.
  - destruct (advanced_counters _ _ Hadv) as (En & Ei).
    destruct (inject_decision_false _ D) as [Hlt | Hge']; [lia |].
    split; [| split].
    + now apply step_empty.
    + unfold counters_ok. rewrite En, Ei. lia.
    + now apply advanced_quiet.
Qed.

Lemma outcome_not_empty (w : World) (r : Z * list Z * string) (w' : World) :
  counters_ok w ->
  normalMessages w + injectedMessages w < NormalCount + InjectedCount ->
  outcome w r w' -> flag_of r = "T"%string \/ flag_of r = "R"%string.
Proof.
  intros (Hn & Hi) Hsum Hout.
  destruct Hout as [| | w1 D Hge Hadv]; [now left | now right |].
  destruct (inject_decision_false _ D); lia.
Qed.

Lemma count_flag_cons (f : string) (r : Z * list Z * string)
    (rs : list (Z * list Z * string)) :
  count_flag f (r :: rs)
  = ((if string_dec (flag_of r) f then 1 else 0) + count_flag f rs)%nat.
Proof.
  unfold count_flag. cbn [map count_occ].
  now destruct (string_dec (flag_of r) f).
Qed.

(** A run of [n] calls that starts with room for [n] more records. *)
Lemma run_calls_counts (n : nat) :
  forall w : World,
    counters_ok w ->
    normalMessages w + injectedMessages w + Z.of_nat n
      <= NormalCount + InjectedCount ->
    returns (run_calls n) w
      (fun rs w' =>
         length rs = n
         /\ counters_ok w'
         /\ injectedMessages w'
            = injectedMessages w + Z.of_nat (count_flag "T" rs)
         /\ normalMessages w'
            = normalMessages w + Z.of_nat (count_flag "R" rs)
         /\ Forall (fun r => flag_of r = "T"%string \/ flag_of r = "R"%string) rs
         /\ (count_flag "T" rs + count_flag "R" rs = n)%nat
         /\ quiet w w').
Proof.
  induction n as [| n IH]; intros w Hok Hroom.
  - apply returns_ret. cbn. repeat split; try lia; try apply Hok. constructor.
  - cbn [run_calls]. apply returns_bind.
    eapply returns_conseq; [apply generateCANData_outcome |].
    intros r w1 Hout.
    destruct (outcome_counter_step _ _ _ Hok Hout) as (Hstep & Hok1 & Hq1).
    pose proof (outcome_not_empty _ _ _ Hok ltac:(lia) Hout) as Hflag.
    apply returns_bind.
    assert (Hroom1 : normalMessages w1 + injectedMessages w1 + Z.of_nat n
                     <= NormalCount + InjectedCount).
    { destruct Hstep as [_ Ei En | _ En Ei | E _ _ _ _]; [lia | lia |].
      destruct Hflag as [E' | E']; rewrite E in E'; discriminate. }
    eapply returns_conseq; [apply (IH w1 Hok1 Hroom1) |].
    intros rs w2 (Hlen & Hok2 & Hinj & Hnor & Hall & Hsum & Hq2).
    apply returns_ret.
    rewrite !count_flag_cons.
    split; [cbn; lia |]. split; [exact Hok2 |].
    destruct Hstep as [E Ei En | E En Ei | E _ _ _ _].
    + rewrite E. cbn.
      split; [lia |]. split; [lia |]. split; [constructor; auto |].
      split; [lia | eapply quiet_trans; eauto].
    + rewrite E. cbn.
      split; [lia |]. split; [lia |]. split; [constructor; auto |].
      split; [lia | eapply quiet_trans; eauto].
    + destruct Hflag as [E' | E']; rewrite E in E'; discriminate.
Qed.

(** A run of any length keeps the invariant. *)
Lemma run_calls_invariant (n : nat) :
  forall w : World,
    counters_ok w ->
    returns (run_calls n) w (fun rs w' => counters_ok w' /\ quiet w w').
Proof.
  induction n as [| n IH]; intros w Hok.
  - apply returns_ret. split; [exact Hok | apply quiet_refl].
  - cbn [run_calls]. apply returns_bind.
    eapply returns_conseq; [apply generateCANData_outcome |].
    intros r w1 Hout.
    destruct (outcome_counter_step _ _ _ Hok Hout) as (_ & Hok1 & Hq1).
    apply returns_bind.
    eapply returns_conseq; [apply (IH w1 Hok1) |].
    intros rs w2 (Hok2 & Hq2). apply returns_ret.
    split; [exact Hok2 | eapply quiet_trans; eauto].
Qed.

Lemma zero_counters_ok (w : World) :
  normalMessages w = 0 -> injectedMessages w = 0 -> counters_ok w.
Proof.
  intros Hn Hi. unfold counters_ok, NormalCount, InjectedCount.
  rewrite Hn, Hi. lia.
Qed.

(** The loop bound is the sum of the two targets. *)
Lemma targets_sum : NormalCount + InjectedCount = TotalRecords.
Proof. reflexivity. Qed.

Lemma total_as_nat : Z.of_nat (Z.to_nat TotalRecords) = TotalRecords.
Proof. apply Z2Nat.id. unfold TotalRecords. lia. Qed.

(** A run of as many calls as the two targets together, from zero. *)
Lemma run_total (n : nat) (w : World) :
  normalMessages w = 0 -> injectedMessages w = 0 ->
  Z.of_nat n = TotalRecords ->
  returns (run_calls n) w
    (fun rs w' =>
       length rs = n
       /\ Z.of_nat (count_flag "T" rs) = InjectedCount
       /\ Z.of_nat (count_flag "R" rs) = NormalCount
       /\ Forall (fun r => flag_of r = "T"%string \/ flag_of r = "R"%string) rs
       /\ injectedMessages w' = InjectedCount
       /\ normalMessages w' = NormalCount).
Proof.
  intros Hn Hi Hlen. pose proof targets_sum as Hsum.
  eapply returns_conseq.
  - apply (run_calls_counts n w (zero_counters_ok w Hn Hi)). lia.
  - intros rs w' (Hl & ((_ & Hn') & (_ & Hi')) & HT & HR & Hall & Hc & _).
    assert (Z.of_nat (count_flag "T" rs) + Z.of_nat (count_flag "R" rs)
            = TotalRecords) by lia.
    repeat split; try assumption; lia.
Qed.

Lemma generateCANData_inv (w : World) (r : Z * list Z * string) (w' : World) :
  generateCANData w = Some (r, w') -> outcome w r w'.
Proof.
  intros E. exact (returns_inv _ _ _ _ _ (generateCANData_outcome w) E).
Qed.

(** The coin is fair on the modelled source: shifting the numerator of
    the drawn fraction by one half exchanges the two outcomes, so they
    are equally many. *)
Lemma lt_half_fair (k : Z) :
  0 <= k < 2 ^ 53 -> lt_half ((k + 2 ^ 52) mod 2 ^ 53) = negb (lt_half k).
Proof.
  intros Hk. unfold lt_half.
  destruct (k <? 2 ^ 52) eqn:E.
  - apply Z.ltb_lt in E. rewrite Z.mod_small by lia.
    apply Z.ltb_ge. lia.
  - apply Z.ltb_ge in E.
    replace (k + 2 ^ 52) with (k - 2 ^ 52 + 1 * 2 ^ 53) by lia.
    rewrite Z.mod_add by lia. rewrite Z.mod_small by lia.
    apply Z.ltb_lt. lia.
Qed.

(** ** A sample world *)

(** An environment whose random source counts up from a given list of raw
    values (then zeros), with a fixed map seed and a fixed clock, and a
    file system that never fails. *)
Definition sample_env (raws : list Z) (seed clock : Z) : Env :=
  mkEnv (fun n => nth n raws 0) (fun _ => seed) (fun _ => clock)
        None (fun _ => None).

Definition sample_world : World :=
  initial_world (sample_env [2 ^ 52; 7; 0; 60] 0 1730361600123456789).

(** A world whose first call injects, and one whose first call is a
    normal record of the first toggle identifier. *)
Definition inject_world : World :=
  initial_world (sample_env [0; 3; 1; 2; 3; 4; 5; 6; 7; 255] 0 0).

Definition toggle_world : World :=
  initial_world (sample_env [2 ^ 52; 0; 5] 0 0).

(** * The claims *)

(** C1. A run of exactly [TotalRecords] calls of [generateCANData] that
    starts with both counters at zero does not panic and returns exactly
    [InjectedCount] records labelled "T" and exactly [NormalCount]
    records labelled "R"; the two targets add up to [TotalRecords], and
    both counters end on their targets. *)
Theorem C1_exact_label_counts (w : World) :
  normalMessages w = 0 -> injectedMessages w = 0 ->
  exists rs w',
    run_calls (Z.to_nat TotalRecords) w = Some (rs, w')
    /\ Z.of_nat (length rs) = TotalRecords
    /\ Z.of_nat (count_flag "T" rs) = InjectedCount
    /\ Z.of_nat (count_flag "R" rs) = NormalCount
    /\ NormalCount + InjectedCount = TotalRecords
    /\ injectedMessages w' = InjectedCount
    /\ normalMessages w' = NormalCount.
Proof.
  intros Hn Hi.
  destruct (run_total (Z.to_nat TotalRecords) w Hn Hi total_as_nat)
    as (rs & w' & Hrun & Hlen & HT & HR & _ & Hi' & Hn').
  exists rs, w'. split; [exact Hrun |].
  split; [rewrite Hlen; exact total_as_nat |].
  split; [exact HT |]. split; [exact HR |].
  split; [exact targets_sum |]. split; assumption.
Qed.

Lemma C1_exact_label_counts_witness :
  normalMessages sample_world = 0 /\ injectedMessages sample_world = 0
  /\ exists rs w',
       run_calls (Z.to_nat TotalRecords) sample_world = Some (rs, w')
       /\ Z.of_nat (length rs) = TotalRecords
       /\ Z.of_nat (count_flag "T" rs) = InjectedCount
       /\ Z.of_nat (count_flag "R" rs) = NormalCount
       /\ NormalCount + InjectedCount = TotalRecords
       /\ injectedMessages w' = InjectedCount
       /\ normalMessages w' = NormalCount.
Proof.
  split; [reflexivity |]. split; [reflexivity |].
  apply (C1_exact_label_counts sample_world); reflexivity.
Defined.

(** C2. In a run that starts with both counters at zero, after any
    number [n] of calls neither counter is negative or above its target,
    and the next call (which does not panic) leaves them so, moving them
    in one of three ways: a record labelled "T" adds one to
    [injectedMessages] only, a record labelled "R" adds one to
    [normalMessages] only, the empty record leaves both; so no counter
    ever goes down. *)
Theorem C2_counter_invariant (w0 : World) (n : nat) :
  normalMessages w0 = 0 -> injectedMessages w0 = 0 ->
  (forall e : Env,
     normalMessages (initial_world e) = 0
     /\ injectedMessages (initial_world e) = 0)
  /\ exists rs w,
    run_calls n w0 = Some (rs, w)
    /\ 0 <= normalMessages w <= NormalCount
    /\ 0 <= injectedMessages w <= InjectedCount
    /\ exists r w',
         generateCANData w = Some (r, w')
         /\ normalMessages w' <= NormalCount
         /\ injectedMessages w' <= InjectedCount
         /\ normalMessages w <= normalMessages w'
         /\ injectedMessages w <= injectedMessages w'
         /\ (flag_of r = "T"%string
             /\ injectedMessages w' = injectedMessages w + 1
             /\ normalMessages w' = normalMessages w
             \/ flag_of r = "R"%string
                /\ normalMessages w' = normalMessages w + 1
                /\ injectedMessages w' = injectedMessages w
             \/ flag_of r = ""%string
                /\ normalMessages w' = normalMessages w
                /\ injectedMessages w' = injectedMessages w).
Proof.
  intros Hn Hi. split; [intros e; split; reflexivity |].
  destruct (run_calls_invariant n w0 (zero_counters_ok w0 Hn Hi))
    as (rs & w & Hrun & Hok & _).
  exists rs, w. split; [exact Hrun |].
  destruct Hok as (Hnor & Hinj).
  split; [exact Hnor |]. split; [exact Hinj |].
  destruct (generateCANData_outcome w) as (r & w' & Hcall & Hout).
  exists r, w'. split; [exact Hcall |].
  destruct (outcome_counter_step w r w' (conj Hnor Hinj) Hout)
    as (Hstep & (Hnor' & Hinj') & _).
  destruct Hstep as [E Ei En | E En Ei | E _ _ En Ei].
  - repeat split; try lia. left. auto.
  - repeat split; try lia. right; left. auto.
  - repeat split; try lia. right; right. auto.
Qed.

Lemma C2_counter_invariant_witness :
  normalMessages sample_world = 0 /\ injectedMessages sample_world = 0
  /\ (forall e : Env,
        normalMessages (initial_world e) = 0
        /\ injectedMessages (initial_world e) = 0)
  /\ exists rs w,
       run_calls 3 sample_world = Some (rs, w)
       /\ 0 <= normalMessages w <= NormalCount
       /\ 0 <= injectedMessages w <= InjectedCount
       /\ exists r w',
            generateCANData w = Some (r, w')
            /\ normalMessages w' <= NormalCount
            /\ injectedMessages w' <= InjectedCount
            /\ normalMessages w <= normalMessages w'
            /\ injectedMessages w <= injectedMessages w'
            /\ (flag_of r = "T"%string
                /\ injectedMessages w' = injectedMessages w + 1
                /\ normalMessages w' = normalMessages w
                \/ flag_of r = "R"%string
                   /\ normalMessages w' = normalMessages w + 1
                   /\ injectedMessages w' = injectedMessages w
                \/ flag_of r = ""%string
                   /\ normalMessages w' = normalMessages w
                   /\ injectedMessages w' = injectedMessages w).
Proof.
  split; [reflexivity |]. split; [reflexivity |].
  apply (C2_counter_invariant sample_world 3); reflexivity.
Defined.

(** C3. Every call of [generateCANData] returns, and its label follows
    the decision rule: "T" exactly when [injectedMessages < InjectedCount]
    and ([normalMessages >= NormalCount] or the coin [rand.Float64() < 0.5]
    favours injection); otherwise "R" exactly when
    [normalMessages < NormalCount]; otherwise the empty label. The coin is
    fair on the modelled source: adding one half to the drawn fraction
    exchanges its two outcomes. *)
Theorem C3_decision_rule (w : World) :
  let inject :=
    injectedMessages w < InjectedCount
    /\ (normalMessages w >= NormalCount \/ coin w = true) in
  (exists r w',
     generateCANData w = Some (r, w')
     /\ (flag_of r = "T"%string <-> inject)
     /\ (flag_of r = "R"%string
         <-> ~ inject /\ normalMessages w < NormalCount)
     /\ (flag_of r = ""%string
         <-> ~ inject /\ ~ normalMessages w < NormalCount))
  /\ (forall k, 0 <= k < 2 ^ 53 ->
        lt_half ((k + 2 ^ 52) mod 2 ^ 53) = negb (lt_half k)).
Proof.
  intros inject. split.
  - destruct (generateCANData_outcome w) as (r & w' & Hcall & Hout).
    exists r, w'. split; [exact Hcall |].
    assert (Hdec : inject_decision w = true <-> inject).
    { rewrite inject_decision_true. unfold inject.
      rewrite Z.ge_le_iff. tauto. }
    clearbody inject.
    destruct Hout as [r data w1 w2 D Hadv Hr Hlen Hbytes Hw2
                     | canID data w1 w2 D Hlt Hkey Hadv Hpay
                     | w1 D Hge Hadv]; cbn [flag_of snd].
    + apply Hdec in D.
      split; [tauto |]. split; (split; [discriminate | tauto]).
    + assert (~ inject) by (rewrite <- Hdec, D; discriminate).
      split; [split; [discriminate | tauto] |].
      split; [tauto |]. split; [discriminate | tauto].
    + assert (~ inject) by (rewrite <- Hdec, D; discriminate).
      assert (~ normalMessages w < NormalCount) by lia.
      split; [split; [discriminate | tauto] |].
      split; [split; [discriminate | tauto] | tauto].
  - exact lt_half_fair.
Qed.

(** C4. In a run of exactly [TotalRecords] calls that starts with both
    counters at zero, no call takes the fallback branch: every one of the
    [TotalRecords] records is labelled "T" or "R", none carries the empty
    label, because [NormalCount + InjectedCount = TotalRecords]. *)
Theorem C4_fallback_unreachable (w : World) :
  normalMessages w = 0 -> injectedMessages w = 0 ->
  NormalCount + InjectedCount = TotalRecords
  /\ exists rs w',
       run_calls (Z.to_nat TotalRecords) w = Some (rs, w')
       /\ length rs = Z.to_nat TotalRecords
       /\ Forall (fun r => flag_of r = "T"%string \/ flag_of r = "R"%string) rs
       /\ ~ In ""%string (map flag_of rs).
Proof.
  intros Hn Hi. split; [exact targets_sum |].
  destruct (run_total (Z.to_nat TotalRecords) w Hn Hi total_as_nat)
    as (rs & w' & Hrun & Hlen & _ & _ & Hall & _).
  exists rs, w'. split; [exact Hrun |]. split; [exact Hlen |].
  split; [exact Hall |].
  rewrite in_map_iff. intros (r & E & Hin).
  rewrite Forall_forall in Hall.
  destruct (Hall r Hin) as [E' | E']; rewrite E in E'; discriminate.
Qed.

Lemma C4_fallback_unreachable_witness :
  normalMessages sample_world = 0 /\ injectedMessages sample_world = 0
  /\ NormalCount + InjectedCount = TotalRecords
  /\ exists rs w',
       run_calls (Z.to_nat TotalRecords) sample_world = Some (rs, w')
       /\ length rs = Z.to_nat TotalRecords
       /\ Forall (fun r => flag_of r = "T"%string \/ flag_of r = "R"%string) rs
       /\ ~ In ""%string (map flag_of rs).
Proof.
  split; [reflexivity |]. split; [reflexivity |].
  apply (C4_fallback_unreachable sample_world); reflexivity.
Defined.

(** The worlds after these first calls. *)
Definition inject_world' : World :=
  set_injectedMessages 1 (drawn 10 inject_world).

Definition toggle_world' : World :=
  set_normalMessages 1 (set_map_pos 1 (drawn 3 toggle_world)).

Definition sample_world' : World :=
  set_normalMessages 1 (set_map_pos 1 (drawn 4 sample_world)).

Example inject_world_call :
  generateCANData inject_world
  = Some ((0x209, [1; 2; 3; 4; 5; 6; 7; 255], "T"%string), inject_world').
Proof. reflexivity. Qed.

Example toggle_world_call :
  generateCANData toggle_world
  = Some ((0x100, [1; 0; 0; 0; 0; 0; 0; 0], "R"%string), toggle_world').
Proof. reflexivity. Qed.

Example sample_world_call :
  generateCANData sample_world
  = Some ((0x205, [9; 0; 0; 0; 0; 0; 0; 0], "R"%string), sample_world').
Proof. reflexivity. Qed.

(** The first three calls in [inject_world], the timestamp of a clock
    reading after and before the epoch, and the row of a record. *)
Example inject_world_run :
  option_map fst (run_calls 3 inject_world)
  = Some [ (0x209, [1; 2; 3; 4; 5; 6; 7; 255], "T"%string);
           (0x206, [0; 0; 0; 0; 0; 0; 0; 0], "T"%string);
           (0x206, [0; 0; 0; 0; 0; 0; 0; 0], "T"%string) ].
Proof. reflexivity. Qed.

Example timestamp_after_epoch :
  option_map fst (formatTimestamp sample_world)
  = Some "1730361600.123456"%string.
Proof. reflexivity. Qed.

Example timestamp_before_epoch :
  option_map fst
    (formatTimestamp (initial_world (sample_env [] 0 (-1499999000))))
  = Some "-2.500001"%string.
Proof. reflexivity. Qed.

Example row_of_record :
  csv_record "1730361600.123456" 0x205 [9; 0; 0; 0; 0; 0; 0; 0] "R"
  = [ "1730361600.123456"; "205"; "8"; "09"; "00"; "00"; "00"; "00"; "00";
      "00"; "00"; "R" ]%string.
Proof. reflexivity. Qed.

Example map_order_seed_5 :
  permute 5 dbc_keys
  = [0x101; 0x200; 0x201; 0x202; 0x203; 0x100; 0x204; 0x205].
Proof. reflexivity. Qed.

(** Membership in the key set, computed. *)
Lemma dbc_keys_spec (k : Z) :
  In k dbc_keys <->
  k = 0x100 \/ k = 0x101 \/ k = 0x200 \/ k = 0x201 \/ k = 0x202
  \/ k = 0x203 \/ k = 0x204 \/ k = 0x205.
Proof.
  cbn. intuition congruence.
Qed.

Lemma map_get_None {V : Type} (m : list (Z * V)) (k : Z) :
  ~ In k (map fst m) -> map_get m k = None.
Proof.
  induction m as [| (k', v) m IH]; cbn; intros H; [reflexivity |].
  destruct (Z.eqb_spec k k') as [-> | _]; [tauto |].
  apply IH. tauto.
Qed.

(** C5. The identifier of every record labelled "T" lies in the range
    [0x206 .. 0x2FF], which is disjoint from the DBC table: it is not a
    key of the map, and the table has no generator for it. Every
    identifier of that range is returned by some call. *)
Theorem C5_injected_id_outside_DBC :
  (forall (w : World) (r : Z * list Z * string) (w' : World),
     generateCANData w = Some (r, w') ->
     flag_of r = "T"%string ->
     0x206 <= id_of r < 0x300
     /\ ~ In (id_of r) dbc_keys
     /\ map_get DBC (id_of r) = None)
  /\ (forall id : Z,
        0x206 <= id < 0x300 ->
        exists (w : World) (r : Z * list Z * string) (w' : World),
          generateCANData w = Some (r, w')
          /\ flag_of r = "T"%string /\ id_of r = id).
Proof.
  split.
  - intros w r w' Hcall Hflag.
    destruct (generateCANData_inv _ _ _ Hcall)
      as [r0 data w1 w2 D Hadv Hr Hlen Hbytes Hw2 | | ];
      cbn [flag_of id_of fst snd] in *; try discriminate.
    pose proof (Z.mod_pos_bound (raw_at w1 0) 250 ltac:(lia)) as Hb.
    assert (Hout : ~ In (r0 + 518) dbc_keys)
      by (rewrite dbc_keys_spec; lia).
    split; [lia |]. split; [exact Hout |].
    now apply map_get_None.
  - intros id Hid.
    set (w := initial_world (mkEnv (fun _ => id - 0x206) (fun _ => 0)
                               (fun _ => 0) None (fun _ => None))).
    destruct (generateCANData_outcome w) as (r & w' & Hcall & Hout).
    exists w, r, w'. split; [exact Hcall |].
    assert (D : inject_decision w = true).
    { apply inject_decision_true. split; [reflexivity |]. right.
      unfold coin, raw_at, lt_half. cbn [w initial_world env rand_raw].
      rewrite Z.mod_small by lia. apply Z.ltb_lt. lia. }
    destruct Hout as [r0 data w1 w2 _ Hadv Hr Hlen Hbytes Hw2
                     | canID data w1 w2 D' | w1 D'];
      try (rewrite D in D'; discriminate).
    split; [reflexivity |]. cbn [id_of fst].
    destruct (advanced_quiet _ _ Hadv) as (Henv & _).
    unfold raw_at in Hr. rewrite Henv in Hr.
    cbn [w initial_world env rand_raw] in Hr.
    rewrite Z.mod_small in Hr by lia. lia.
Qed.

Lemma C5_injected_id_outside_DBC_witness :
  (generateCANData inject_world
   = Some ((0x209, [1; 2; 3; 4; 5; 6; 7; 255], "T"%string), inject_world')
   /\ 0x206 <= 0x209 < 0x300
   /\ ~ In 0x209 dbc_keys
   /\ map_get DBC 0x209 = None)
  /\ (0x206 <= 0x2FF < 0x300
      /\ exists (w : World) (r : Z * list Z * string) (w' : World),
           generateCANData w = Some (r, w')
           /\ flag_of r = "T"%string /\ id_of r = 0x2FF).
Proof.
  split.
  - split; [reflexivity |].
    exact (proj1 C5_injected_id_outside_DBC inject_world _ _
             inject_world_call eq_refl).
  - split; [lia |].
    apply (proj2 C5_injected_id_outside_DBC 0x2FF). lia.
Defined.

(** The payload of a normal record: it comes from the generator stored
    under the record's identifier. *)
Lemma normal_record_payload (w : World) (r : Z * list Z * string) (w' : World) :
  generateCANData w = Some (r, w') ->
  flag_of r = "R"%string ->
  In (id_of r) dbc_keys
  /\ exists w1 w2 : World,
       advanced w w1
       /\ dbc_payload w1 (id_of r) (data_of r) w2
       /\ w' = set_normalMessages (int_wrap (normalMessages w + 1)) w2.
Proof.
  intros Hcall Hflag.
  destruct (generateCANData_inv _ _ _ Hcall)
    as [| canID data w1 w2 D Hlt Hkey Hadv Hpay |];
    cbn [flag_of snd] in Hflag; try discriminate.
  split; [exact Hkey |]. exists w1, w2. auto.
Qed.

Lemma dbc_ranges_spec (id lo hi : Z) :
  In (id, (lo, hi)) dbc_ranges ->
  0x200 <= id <= 0x204 /\ 40 <= lo /\ lo <= hi /\ hi <= 100.
Proof.
  cbn. intros H.
  repeat (destruct H as [H | H]; [inversion H; subst; lia |]).
  contradiction.
Qed.

Ltac all_bytes :=
  repeat (apply Forall_cons;
          [first [apply to_byte_is_byte | unfold is_byte; lia] |]);
  apply Forall_nil.

(** C6. The identifier of every record labelled "R" is a key of the DBC
    table, and its payload has eight bytes of which all but the leading
    one (the leading two for identifier 0x205) are 0x00. *)
Theorem C6_normal_id_and_trailing_zeros
    (w : World) (r : Z * list Z * string) (w' : World) :
  generateCANData w = Some (r, w') ->
  flag_of r = "R"%string ->
  In (id_of r) dbc_keys
  /\ map_get DBC (id_of r) <> None
  /\ length (data_of r) = 8%nat
  /\ Forall is_byte (data_of r)
  /\ (id_of r <> 0x205 ->
      forall i : nat, (1 <= i < 8)%nat -> nth i (data_of r) 0 = 0)
  /\ (id_of r = 0x205 ->
      forall i : nat, (2 <= i < 8)%nat -> nth i (data_of r) 0 = 0).
Proof.
  intros Hcall Hflag.
  destruct (normal_record_payload _ _ _ Hcall Hflag)
    as (Hkey & w1 & w2 & _ & Hpay & _).
  split; [exact Hkey |].
  split.
  { apply dbc_keys_spec in Hkey.
    destruct Hkey as [E | [E | [E | [E | [E | [E | [E | E]]]]]]];
      rewrite E; discriminate. }
  assert (Hz : is_byte 0) by (unfold is_byte; lia).
  destruct Hpay as [id Hid | id lo hi Hin | ].
  - split; [reflexivity |].
    split; [all_bytes |].
    split; [| intros ->; lia].
    intros _ i Hi.
    do 8 (destruct i as [| i]; [try lia; reflexivity |]). lia.
  - apply dbc_ranges_spec in Hin.
    split; [reflexivity |].
    split; [all_bytes |].
    split; [| intros ->; lia].
    intros _ i Hi.
    do 8 (destruct i as [| i]; [try lia; reflexivity |]). lia.
  - split; [reflexivity |].
    split; [all_bytes |].
    split; [intros H; now contradiction H |].
    intros _ i Hi.
    do 8 (destruct i as [| i]; [try lia; reflexivity |]). lia.
Qed.

Lemma C6_normal_id_and_trailing_zeros_witness :
  generateCANData sample_world
  = Some ((0x205, [9; 0; 0; 0; 0; 0; 0; 0], "R"%string), sample_world')
  /\ In 0x205 dbc_keys
  /\ map_get DBC 0x205 <> None
  /\ length [9; 0; 0; 0; 0; 0; 0; 0] = 8%nat
  /\ Forall is_byte [9; 0; 0; 0; 0; 0; 0; 0]
  /\ (0x205 <> 0x205 ->
      forall i : nat, (1 <= i < 8)%nat -> nth i [9; 0; 0; 0; 0; 0; 0; 0] 0 = 0)
  /\ (0x205 = 0x205 ->
      forall i : nat, (2 <= i < 8)%nat -> nth i [9; 0; 0; 0; 0; 0; 0; 0] 0 = 0).
Proof.
  split; [reflexivity |].
  exact (C6_normal_id_and_trailing_zeros sample_world _ _
           sample_world_call eq_refl).
Defined.

(** The value a payload carries: one byte, or two bytes with the high
    byte first. *)
Definition value1 (data : list Z) : Z := nth 0 data 0.

Definition value2 (data : list Z) : Z :=
  Z.lor (Z.shiftl (nth 0 data 0) 8) (nth 1 data 0).

(** The one-byte range generators stay within their bounds. *)
Lemma range_payload_in_bounds
    (w : World) (r : Z * list Z * string) (w' : World) (lo hi : Z) :
  generateCANData w = Some (r, w') ->
  flag_of r = "R"%string ->
  In (id_of r, (lo, hi)) dbc_ranges ->
  lo <= value1 (data_of r) <= hi.
Proof.
  intros Hcall Hflag Hin.
  destruct (normal_record_payload _ _ _ Hcall Hflag)
    as (_ & w1 & w2 & _ & Hpay & _).
  pose proof (dbc_ranges_spec _ _ _ Hin) as Hb.
  destruct Hpay as [id Hid | id lo' hi' Hin' | ]; [lia | | lia].
  assert (lo' = lo /\ hi' = hi) as (-> & ->).
  { pose proof (dbc_ranges_spec _ _ _ Hin') as Hb'.
    cbn in Hin, Hin'.
    repeat (destruct Hin as [Hin | Hin];
            [inversion Hin; subst;
             repeat (destruct Hin' as [Hin' | Hin'];
                     [inversion Hin'; subst; try lia; auto |]);
             try contradiction |]).
    contradiction. }
  unfold value1. cbn [nth].
  pose proof (Z.mod_pos_bound (raw_at w1 0) (hi - lo + 1) ltac:(lia)).
  rewrite to_byte_small by lia. lia.
Qed.

(** C7, at the failing input. With the draws of [sample_world] the call
    returns a normal record of identifier 0x205 whose two leading bytes
    are 0x09 (the high byte of a first draw, 2500) and 0x00 (the low byte
    of a second draw, 2560): high byte first they read 2304, below the
    range 2500..3000 of the identifier. *)
Theorem C7_engine_rpm_outside_range :
  generateCANData sample_world
  = Some ((0x205, [9; 0; 0; 0; 0; 0; 0; 0], "R"%string), sample_world')
  /\ fluctuate 2500 3000 (drawn 2 sample_world)
     = Some (2500, drawn 3 sample_world)
  /\ fluctuate 2500 3000 (drawn 3 sample_world)
     = Some (2560, drawn 4 sample_world)
  /\ value2 [9; 0; 0; 0; 0; 0; 0; 0] = 2304
  /\ ~ (2500 <= value2 [9; 0; 0; 0; 0; 0; 0; 0] <= 3000)
  /\ ~ (forall (w : World) (r : Z * list Z * string) (w' : World),
          generateCANData w = Some (r, w') ->
          flag_of r = "R"%string -> id_of r = 0x205 ->
          2500 <= value2 (data_of r) <= 3000).
Proof.
  split; [reflexivity |]. split; [reflexivity |]. split; [reflexivity |].
  split; [reflexivity |]. split; [cbn; lia |].
  intros H.
  specialize (H sample_world _ _ sample_world_call eq_refl eq_refl).
  cbn in H. lia.
Qed.

(** C8. In every record labelled "R" whose identifier is 0x100 or 0x101
    the leading byte is 0 or 1: it is 1 exactly when the coin
    [rand.Float64() < 0.5] read from a draw of this very call (a position
    of the random source between the one before and the one after the
    call) comes out true. The coin is fair on the modelled source. *)
Theorem C8_toggle_byte
    (w : World) (r : Z * list Z * string) (w' : World) :
  generateCANData w = Some (r, w') ->
  flag_of r = "R"%string ->
  id_of r = 0x100 \/ id_of r = 0x101 ->
  (value1 (data_of r) = 0 \/ value1 (data_of r) = 1)
  /\ (exists p : nat,
        (rand_pos w <= p < rand_pos w')%nat
        /\ value1 (data_of r)
           = if lt_half (rand_raw (env w) p mod 2 ^ 53) then 1 else 0)
  /\ (forall k, 0 <= k < 2 ^ 53 ->
        lt_half ((k + 2 ^ 52) mod 2 ^ 53) = negb (lt_half k)).
Proof.
  intros Hcall Hflag Hid.
  destruct (normal_record_payload _ _ _ Hcall Hflag)
    as (_ & w1 & w2 & Hadv & Hpay & ->).
  split; [| split; [| exact lt_half_fair]].
  - destruct Hpay as [id _ | id lo hi Hin | ].
    + unfold value1. cbn [nth]. destruct (coin w1); cbn; auto.
    + apply dbc_ranges_spec in Hin. lia.
    + lia.
  - destruct Hpay as [id _ | id lo hi Hin | ].
    + exists (rand_pos w1). split.
      * pose proof (advanced_rand_pos _ _ Hadv). cbn. lia.
      * destruct (advanced_quiet _ _ Hadv) as (Henv & _).
        unfold value1, coin, raw_at. cbn [nth].
        rewrite Henv, Nat.add_0_r.
        now destruct (lt_half _).
    + apply dbc_ranges_spec in Hin. lia.
    + lia.
Qed.

Lemma C8_toggle_byte_witness :
  generateCANData toggle_world
  = Some ((0x100, [1; 0; 0; 0; 0; 0; 0; 0], "R"%string), toggle_world')
  /\ (value1 [1; 0; 0; 0; 0; 0; 0; 0] = 0 \/ value1 [1; 0; 0; 0; 0; 0; 0; 0] = 1)
  /\ (exists p : nat,
        (rand_pos toggle_world <= p < rand_pos toggle_world')%nat
        /\ value1 [1; 0; 0; 0; 0; 0; 0; 0]
           = if lt_half (rand_raw (env toggle_world) p mod 2 ^ 53)
             then 1 else 0)
  /\ (forall k, 0 <= k < 2 ^ 53 ->
        lt_half ((k + 2 ^ 52) mod 2 ^ 53) = negb (lt_half k)).
Proof.
  split; [reflexivity |].
  apply (C8_toggle_byte toggle_world _ _ toggle_world_call eq_refl).
  left. reflexivity.
Defined.

(** ** Reading decimal numerals back *)

Definition digit_value (c : ascii) : Z := Z.of_nat (nat_of_ascii c) - 48.

Definition is_digit (c : ascii) : bool :=
  (0 <=? digit_value c) && (digit_value c <=? 9).

Fixpoint all_digits (s : string) : bool :=
  match s with
  | EmptyString => true
  | String c s' => is_digit c && all_digits s'
  end.

(** The number a string of decimal digits denotes, after [acc]. *)
Fixpoint decimal_from (acc : Z) (s : string) : Z :=
  match s with
  | EmptyString => acc
  | String c s' => decimal_from (acc * 10 + digit_value c) s'
  end.

Definition decimal_value (s : string) : Z := decimal_from 0 s.

Section Strings.

Lemma length_app (s1 s2 : string) :
  String.length (s1 ++ s2)%string = (String.length s1 + String.length s2)%nat.
Proof.
  induction s1 as [| c s1 IH]; cbn; [reflexivity | now rewrite IH].
Qed.

Lemma append_assoc (s1 s2 s3 : string) :
  ((s1 ++ s2) ++ s3 = s1 ++ (s2 ++ s3))%string.
Proof.
  induction s1 as [| c s1 IH]; cbn; [reflexivity | now rewrite IH].
Qed.

Lemma all_digits_app (s1 s2 : string) :
  all_digits (s1 ++ s2)%string = all_digits s1 && all_digits s2.
Proof.
  induction s1 as [| c s1 IH]; cbn; [reflexivity |].
  now rewrite IH, andb_assoc.
Qed.

Lemma decimal_from_app (acc : Z) (s1 s2 : string) :
  decimal_from acc (s1 ++ s2)%string = decimal_from (decimal_from acc s1) s2.
Proof.
  revert acc. induction s1 as [| c s1 IH]; intros acc; cbn; auto.
Qed.

Lemma digit_char_value (d : Z) :
  0 <= d < 10 -> digit_value (Fmt.digit_char d) = d.
Proof.
  intros Hd. unfold Fmt.digit_char, digit_value.
  destruct (d <? 10) eqn:E; [| apply Z.ltb_ge in E; lia].
  rewrite nat_ascii_embedding by lia. lia.
Qed.

Lemma digit_char_is_digit (d : Z) :
  0 <= d < 10 -> is_digit (Fmt.digit_char d) = true.
Proof.
  intros Hd. unfold is_digit. rewrite digit_char_value by assumption.
  apply andb_true_iff. split; apply Z.leb_le; lia.
Qed.

Lemma zeros_length (n : nat) : String.length (Fmt.zeros n) = n.
Proof. induction n as [| n IH]; cbn; auto. Qed.

Lemma zeros_all_digits (n : nat) : all_digits (Fmt.zeros n) = true.
Proof. induction n as [| n IH]; cbn; auto. Qed.

Lemma zeros_decimal (n : nat) : decimal_from 0 (Fmt.zeros n) = 0.
Proof. induction n as [| n IH]; cbn; auto. Qed.

(** The decimal digits of [n], when the fuel covers them. *)
Lemma digits_decimal (fuel : nat) :
  forall (k : nat) (n : Z),
    (1 <= k <= fuel)%nat -> 0 <= n < 10 ^ Z.of_nat k ->
    all_digits (Fmt.digits fuel 10 n) = true
    /\ decimal_value (Fmt.digits fuel 10 n) = n
    /\ (1 <= String.length (Fmt.digits fuel 10 n) <= k)%nat.
Proof.
  induction fuel as [| fuel IH]; intros k n Hk Hn; [lia |].
  cbn [Fmt.digits].
  destruct (n <? 10) eqn:E.
  - apply Z.ltb_lt in E. cbn.
    rewrite digit_char_is_digit, digit_char_value by lia.
    repeat split; lia.
  - apply Z.ltb_ge in E.
    destruct k as [| [| k]]; [lia | cbn in Hn; lia |].
    assert (Hpow : 10 ^ Z.of_nat (S (S k)) = 10 * 10 ^ Z.of_nat (S k)).
    { rewrite (Nat2Z.inj_succ (S k)). apply Z.pow_succ_r. lia. }
    assert (Hq : 0 <= n / 10 < 10 ^ Z.of_nat (S k)).
    { split; [apply Z.div_pos; lia |].
      apply Z.div_lt_upper_bound; lia. }
    destruct (IH (S k) (n / 10) ltac:(lia) Hq) as (Hall & Hval & Hlen).
    pose proof (Z.mod_pos_bound n 10 ltac:(lia)) as Hr.
    unfold decimal_value in *.
    rewrite all_digits_app, decimal_from_app, length_app, Hall, Hval.
    cbn. rewrite digit_char_is_digit, digit_char_value by lia.
    repeat split; try lia.
    pose proof (Z.div_mod n 10 ltac:(lia)). lia.
Qed.

(** [%06d] of a number of microseconds is six digits that read back. *)
Lemma pad0_six (n : Z) :
  0 <= n <= 999999 ->
  String.length (Fmt.pad0 6 10 n) = 6%nat
  /\ all_digits (Fmt.pad0 6 10 n) = true
  /\ decimal_value (Fmt.pad0 6 10 n) = n.
Proof.
  intros Hn. unfold Fmt.pad0, Fmt.sign, Fmt.unsigned.
  destruct (n <? 0) eqn:E; [apply Z.ltb_lt in E; lia |].
  rewrite Z.abs_eq by lia.
  assert (Hb : 0 <= n < 10 ^ Z.of_nat 6)
    by (change (Z.of_nat 6) with 6; lia).
  destruct (digits_decimal 64 6 n ltac:(lia) Hb) as (Hall & Hval & Hlen).
  cbn [append String.length].
  unfold decimal_value in *.
  rewrite length_app, all_digits_app, decimal_from_app.
  rewrite zeros_length, zeros_all_digits, zeros_decimal, Hall, Hval.
  repeat split. lia.
Qed.

(** [%d] of a 64-bit number: a sign and digits that read back. *)
Lemma d_numeral (n : Z) :
  - 2 ^ 63 <= n < 2 ^ 63 ->
  exists ds : string,
    Fmt.d n = (Fmt.sign n ++ ds)%string
    /\ (1 <= String.length ds)%nat
    /\ all_digits ds = true
    /\ decimal_value ds = Z.abs n.
Proof.
  intros Hn. exists (Fmt.unsigned 10 (Z.abs n)).
  split; [reflexivity |].
  assert (Hb : 0 <= Z.abs n < 10 ^ Z.of_nat 64)
    by (change (Z.of_nat 64) with 64; lia).
  destruct (digits_decimal 64 64 (Z.abs n) ltac:(lia) Hb)
    as (Hall & Hval & Hlen).
  unfold Fmt.unsigned. repeat split; auto; lia.
Qed.

End Strings.

(** The microseconds within the second, whatever the wrap-around. *)
Lemma microseconds_eq (sec ns : Z) :
  0 <= ns < 10 ^ 9 ->
  int_wrap (UnixMicro (mkTime sec ns) - int_wrap (Unix (mkTime sec ns) * 10 ^ 6))
  = ns / 10 ^ 3
  /\ 0 <= ns / 10 ^ 3 <= 999999.
Proof.
  intros Hns.
  assert (Hq : 0 <= ns / 10 ^ 3 <= 999999).
  { split; [apply Z.div_pos; lia |].
    apply Z.lt_succ_r. apply Z.div_lt_upper_bound; lia. }
  split; [| exact Hq].
  unfold UnixMicro, Unix. cbn [unix_sec nsec].
  destruct (int_wrap_eqm (int_wrap (sec * 10 ^ 6) + ns / 10 ^ 3)) as (k & ->).
  replace (int_wrap (sec * 10 ^ 6) + ns / 10 ^ 3 + k * 2 ^ 64
           - int_wrap (sec * 10 ^ 6))
    with (ns / 10 ^ 3 + k * 2 ^ 64) by ring.
  rewrite int_wrap_add_mul. apply int_wrap_small. lia.
Qed.

(** C9. [formatTimestamp] always returns; it reads the clock once, and
    from that one reading [t] (nanoseconds since the epoch) it prints the
    whole seconds [t / 10^9] in decimal, a point, and the microseconds
    within the second, a number of [0 .. 999999], as exactly six decimal
    digits padded with zeros: the string has the form integer, point, six
    digits, and both parts read back as the numbers they print. *)
Theorem C9_timestamp_format (w : World) :
  let t := clock_ns (env w) (clock_pos w) in
  let seconds := int_wrap (t / 10 ^ 9) in
  let micros := (t mod 10 ^ 9) / 10 ^ 3 in
  exists whole frac : string,
    formatTimestamp w
    = Some ((Fmt.sign seconds ++ whole ++ "." ++ frac)%string,
            set_clock_pos (S (clock_pos w)) w)
    /\ (- 2 ^ 63 <= t / 10 ^ 9 < 2 ^ 63 -> seconds = t / 10 ^ 9)
    /\ Fmt.sign seconds = (if seconds <? 0 then "-"%string else ""%string)
    /\ (1 <= String.length whole)%nat
    /\ all_digits whole = true
    /\ decimal_value whole = Z.abs seconds
    /\ 0 <= micros <= 999999
    /\ String.length frac = 6%nat
    /\ all_digits frac = true
    /\ decimal_value frac = micros.
Proof.
  intros t seconds micros.
  pose proof (Z.mod_pos_bound t (10 ^ 9) ltac:(lia)) as Hns.
  destruct (microseconds_eq seconds (t mod 10 ^ 9) Hns) as (Hmic & Hrange).
  destruct (d_numeral seconds (int_wrap_range _)) as (whole & Hd & Hl & Ha & Hv).
  destruct (pad0_six micros Hrange) as (Hfl & Hfa & Hfv).
  exists whole, (Fmt.pad0 6 10 micros).
  split.
  - unfold formatTimestamp, bind, time_Now, ret.
    fold t. fold seconds. rewrite Hmic. fold micros.
    cbn [Unix unix_sec]. rewrite Hd.
    now rewrite append_assoc.
  - split; [intros H; now apply int_wrap_small |].
    split; [reflexivity |].
    repeat split; auto; lia.
Qed.

Lemma C9_timestamp_format_witness :
  exists whole frac : string,
    formatTimestamp sample_world
    = Some ((whole ++ "." ++ frac)%string, set_clock_pos 1 sample_world)
    /\ decimal_value whole = 1730361600
    /\ String.length frac = 6%nat
    /\ decimal_value frac = 123456.
Proof.
  destruct (C9_timestamp_format sample_world)
    as (whole & frac & Hcall & _ & _ & _ & _ & Hw & _ & Hl & _ & Hf).
  exists whole, frac. split; [exact Hcall |].
  split; [exact Hw |]. split; [exact Hl | exact Hf].
Defined.

(** ** The loop of generateDataset *)

Lemma outcome_quiet (w : World) (r : Z * list Z * string) (w' : World) :
  outcome w r w' -> quiet w w'.
Proof.
  intros Hout.
  destruct Hout as [r data w1 w2 D Hadv Hr Hlen Hbytes Hw2
                   | canID data w1 w2 D Hlt Hkey Hadv Hpay
                   | w1 D Hge Hadv].
  - subst w2. apply (quiet_trans _ _ _ (advanced_quiet _ _ Hadv)).
    repeat split.
  - pose proof (dbc_payload_advanced _ _ _ _ Hpay) as Hadv2.
    apply (quiet_trans _ _ _ (advanced_quiet _ _ (advanced_trans _ _ _ Hadv Hadv2))).
    repeat split.
  - now apply advanced_quiet.
Qed.

(** What the loop leaves alone apart from the rows: the oracle and the
    standard output. *)
Definition wrote (w : World) (k : nat) (calls : nat) (w' : World) : Prop :=
  env w' = env w /\ stdout w' = stdout w
  /\ write_calls w' = (write_calls w + calls)%nat
  /\ exists new : list (list string),
       rows w' = rows w ++ new /\ length new = k.

Lemma formatTimestamp_returns (w : World) :
  returns formatTimestamp w
    (fun _ w' => w' = set_clock_pos (S (clock_pos w)) w).
Proof.
  unfold formatTimestamp. apply returns_bind.
  eexists _, _. split; [reflexivity |].
  now apply returns_ret.
Qed.

Lemma writer_Write_returns (rec : list string) (w : World)
    (Q : option string -> World -> Prop) :
  match write_err (env w) (write_calls w) with
  | Some e => Q (Some e) (set_write_calls (S (write_calls w)) w)
  | None => Q None (set_rows (rows w ++ [rec])
                      (set_write_calls (S (write_calls w)) w))
  end ->
  returns (writer_Write rec) w Q.
Proof.
  intros HQ. unfold returns, writer_Write.
  destruct (write_err (env w) (write_calls w)) as [e |];
    eexists _, _; (split; [reflexivity | exact HQ]).
Qed.

(** One iteration up to the call of [writer.Write]: the timestamp and the
    record are produced without touching the output. *)
Ltac loop_step :=
  cbn [write_loop]; apply returns_bind;
  eapply returns_conseq; [apply formatTimestamp_returns |];
  let ts := fresh "ts" in
  let w1 := fresh "w1" in
  let w2 := fresh "w2" in
  let canID := fresh "canID" in
  let data := fresh "data" in
  let flag := fresh "flag" in
  let Hout := fresh "Hout" in
  let q1 := fresh "q1" in
  let q3 := fresh "q3" in
  let q4 := fresh "q4" in
  let q5 := fresh "q5" in
  intros ts w1 ->; apply returns_bind;
  eapply returns_conseq; [apply generateCANData_outcome |];
  intros [[canID data] flag] w2 Hout;
  destruct (outcome_quiet _ _ _ Hout) as (q1 & _ & q3 & q4 & q5);
  cbn [env write_calls rows stdout set_clock_pos] in q1, q3, q4, q5;
  apply returns_bind, writer_Write_returns;
  rewrite q1, q3.

(** The loop never panics. *)
Lemma write_loop_returns (n : nat) :
  forall w : World,
    returns (write_loop n) w
      (fun _ w' => env w' = env w /\ stdout w' = stdout w).
Proof.
  induction n as [| n IH]; intros w.
  - apply returns_ret. auto.
  - loop_step.
    destruct (write_err (env w) (write_calls w)) as [e |].
    + apply returns_ret. cbn. auto.
    + eapply returns_conseq; [apply IH |].
      cbn. intros _ w' (H1 & H2). split; congruence.
Qed.

(** The first failing write, at the [k]-th call from here, ends the loop
    after exactly [k] more rows. *)
Lemma write_loop_fails (n : nat) :
  forall (w : World) (k : nat) (e : string),
    (k < n)%nat ->
    write_err (env w) (write_calls w + k) = Some e ->
    (forall j : nat, (j < k)%nat ->
                     write_err (env w) (write_calls w + j) = None) ->
    returns (write_loop n) w
      (fun err w' =>
         err = Some ("could not write record: " ++ e)%string
         /\ wrote w k (S k) w').
Proof.
  induction n as [| n IH]; intros w k e Hk Hfail Hbefore; [lia |].
  loop_step.
  destruct k as [| k].
  - rewrite Nat.add_0_r in Hfail. rewrite Hfail.
    apply returns_ret. split; [reflexivity |].
    unfold wrote. cbn. repeat split; try assumption; try lia.
    exists []. split; [now rewrite app_nil_r | reflexivity].
  - pose proof (Hbefore 0%nat ltac:(lia)) as H0.
    rewrite Nat.add_0_r in H0. rewrite H0.
    eapply returns_conseq.
    + apply (IH _ k e); cbn; [lia | |].
      * rewrite q1. rewrite <- Hfail. f_equal. lia.
      * intros j Hj. rewrite q1. rewrite <- (Hbefore (S j)) by lia.
        f_equal. lia.
    + cbn. intros err w' (Herr & Henv & Hout' & Hcalls & new & Hrows & Hlen).
      split; [exact Herr |]. unfold wrote.
      cbn in Henv, Hout', Hcalls, Hrows.
      split; [congruence |]. split; [congruence |]. split; [lia |].
      exists (csv_record ts canID data flag :: new).
      split; [| cbn; lia].
      rewrite Hrows, q4, <- app_assoc. reflexivity.
Qed.

(** Without a failing write the loop accepts one row per iteration. *)
Lemma write_loop_succeeds (n : nat) :
  forall w : World,
    (forall j : nat, (j < n)%nat ->
                     write_err (env w) (write_calls w + j) = None) ->
    returns (write_loop n) w (fun err w' => err = None /\ wrote w n n w').
Proof.
  induction n as [| n IH]; intros w Hnone.
  - apply returns_ret. split; [reflexivity |].
    unfold wrote. repeat split; try lia.
    exists []. split; [now rewrite app_nil_r | reflexivity].
  - loop_step.
    pose proof (Hnone 0%nat ltac:(lia)) as H0.
    rewrite Nat.add_0_r in H0. rewrite H0.
    eapply returns_conseq.
    + apply IH. cbn. intros j Hj. rewrite q1.
      rewrite <- (Hnone (S j)) by lia. f_equal. lia.
    + cbn. intros err w' (Herr & Henv & Hout' & Hcalls & new & Hrows & Hlen).
      split; [exact Herr |]. unfold wrote.
      cbn in Henv, Hout', Hcalls, Hrows.
      split; [congruence |]. split; [congruence |]. split; [lia |].
      exists (csv_record ts canID data flag :: new).
      split; [| cbn; lia].
      rewrite Hrows, q4, <- app_assoc. reflexivity.
Qed.

(** ** generateDataset and main *)

Lemma generateDataset_create_fails (filename e : string) (w : World) :
  create_err (env w) = Some e ->
  generateDataset filename w
  = Some (Some ("could not create file: " ++ e)%string, w).
Proof.
  intros H. unfold generateDataset, bind, os_Create, gets.
  rewrite H. reflexivity.
Qed.

Lemma generateDataset_created (filename : string) (w : World) :
  create_err (env w) = None ->
  generateDataset filename w = write_loop (Z.to_nat TotalRecords) w.
Proof.
  intros H. unfold generateDataset, bind, os_Create, gets.
  rewrite H. reflexivity.
Qed.

Lemma main_after (w : World) (err : option string) (w1 : World) :
  generateDataset "Fuzzy_dataset.csv" w = Some (err, w1) ->
  main w
  = Some (tt,
          set_stdout
            (stdout w1
             ++ match err with
                | Some e => error_message e
                | None => success_message "Fuzzy_dataset.csv"
                end)%string w1).
Proof.
  intros H. unfold main, bind. rewrite H.
  now destruct err.
Qed.

(** A world in which the file cannot be created, and one in which the
    third write fails. *)
Definition no_file_world : World :=
  initial_world (mkEnv (fun _ => 0) (fun _ => 0) (fun _ => 0)
                       (Some "permission denied"%string) (fun _ => None)).

Definition disk_full_world : World :=
  initial_world (mkEnv (fun _ => 0) (fun _ => 0) (fun _ => 0) None
                       (fun k => if Nat.eqb k 2 then Some "disk full"%string
                                 else None)).

(** C10, as the claim reads, fails: when the file cannot be created,
    [main] prints the error and returns, so the process ends with exit
    status 0, not with a nonzero one. *)
Lemma C10_exit_status_counterexample :
  create_err (env no_file_world) = Some "permission denied"%string
  /\ main no_file_world
     = Some (tt,
             set_stdout
               (error_message "could not create file: permission denied")
               no_file_world)
  /\ exit_status (main no_file_world) = 0
  /\ ~ (forall w : World,
          create_err (env w) <> None -> exit_status (main w) <> 0).
Proof.
  assert (Hmain : main no_file_world
                  = Some (tt,
                          set_stdout
                            (error_message
                               "could not create file: permission denied")
                            no_file_world)).
  { apply (main_after no_file_world (Some _) no_file_world).
    now apply generateDataset_create_fails. }
  split; [reflexivity |]. split; [exact Hmain |].
  split; [now rewrite Hmain |].
  intros H. apply (H no_file_world); [discriminate |].
  now rewrite Hmain.
Qed.

(** C10, amended. [main] never panics and the process always ends with
    exit status 0. When the file cannot be created, no row is written and
    "Error generating dataset: could not create file: ..." is printed on
    standard output. When a write fails, the loop stops there: the rows
    accepted before it are the only ones added, [writer.Write] is not
    called again, and "Error generating dataset: could not write record:
    ..." is printed on standard output. Otherwise [TotalRecords] rows are
    added and the success message is printed on standard output. *)
Theorem C10_failure_reporting (w : World) :
  exit_status (main w) = 0
  /\ (forall e : string,
        create_err (env w) = Some e ->
        main w
        = Some (tt,
                set_stdout
                  (stdout w ++ error_message ("could not create file: " ++ e))
                  w))
  /\ (forall (k : nat) (e : string),
        create_err (env w) = None ->
        Z.of_nat k < TotalRecords ->
        write_err (env w) (write_calls w + k) = Some e ->
        (forall j : nat, (j < k)%nat ->
                         write_err (env w) (write_calls w + j) = None) ->
        exists w' : World,
          main w = Some (tt, w')
          /\ stdout w'
             = (stdout w ++ error_message ("could not write record: " ++ e))%string
          /\ write_calls w' = (write_calls w + S k)%nat
          /\ exists new : list (list string),
               rows w' = rows w ++ new /\ length new = k)
  /\ (create_err (env w) = None ->
      (forall j : nat, Z.of_nat j < TotalRecords ->
                       write_err (env w) (write_calls w + j) = None) ->
      exists w' : World,
        main w = Some (tt, w')
        /\ stdout w'
           = (stdout w ++ success_message "Fuzzy_dataset.csv")%string
        /\ exists new : list (list string),
             rows w' = rows w ++ new
             /\ Z.of_nat (length new) = TotalRecords).
Proof.
  split; [| split; [| split]].
  - destruct (create_err (env w)) as [e |] eqn:Hc.
    + rewrite (main_after w _ w (generateDataset_create_fails _ e w Hc)).
      reflexivity.
    + destruct (write_loop_returns (Z.to_nat TotalRecords) w)
        as (err & w1 & Hloop & _).
      rewrite <- (generateDataset_created "Fuzzy_dataset.csv" w Hc) in Hloop.
      rewrite (main_after w err w1 Hloop). reflexivity.
  - intros e Hc.
    rewrite (main_after w _ w (generateDataset_create_fails _ e w Hc)).
    reflexivity.
  - intros k e Hc Hk Hfail Hbefore.
    assert (Hk' : (k < Z.to_nat TotalRecords)%nat)
      by (pose proof total_as_nat; lia).
    destruct (write_loop_fails (Z.to_nat TotalRecords) w k e Hk' Hfail Hbefore)
      as (err & w1 & Hloop & -> & Henv & Hout & Hcalls & new & Hrows & Hlen).
    rewrite <- (generateDataset_created "Fuzzy_dataset.csv" w Hc) in Hloop.
    rewrite (main_after w _ w1 Hloop).
    eexists. split; [reflexivity |]. cbn.
    split; [now rewrite Hout |]. split; [exact Hcalls |].
    exists new. auto.
  - intros Hc Hnone.
    assert (Hnone' : forall j : nat,
               (j < Z.to_nat TotalRecords)%nat ->
               write_err (env w) (write_calls w + j) = None).
    { intros j Hj. apply Hnone. pose proof total_as_nat. lia. }
    destruct (write_loop_succeeds (Z.to_nat TotalRecords) w Hnone')
      as (err & w1 & Hloop & -> & Henv & Hout & Hcalls & new & Hrows & Hlen).
    rewrite <- (generateDataset_created "Fuzzy_dataset.csv" w Hc) in Hloop.
    rewrite (main_after w _ w1 Hloop).
    eexists. split; [reflexivity |]. cbn.
    split; [now rewrite Hout |].
    exists new. split; [exact Hrows |].
    rewrite Hlen. exact total_as_nat.
Qed.

Lemma C10_failure_reporting_witness :
  (create_err (env no_file_world) = Some "permission denied"%string
   /\ main no_file_world
      = Some (tt,
              set_stdout
                (stdout no_file_world
                 ++ error_message ("could not create file: " ++ "permission denied"))
                no_file_world))
  /\ (create_err (env disk_full_world) = None
      /\ Z.of_nat 2 < TotalRecords
      /\ write_err (env disk_full_world) (write_calls disk_full_world + 2)
         = Some "disk full"%string
      /\ (forall j : nat,
            (j < 2)%nat ->
            write_err (env disk_full_world) (write_calls disk_full_world + j)
            = None)
      /\ exists w' : World,
           main disk_full_world = Some (tt, w')
           /\ stdout w'
              = (stdout disk_full_world
                 ++ error_message ("could not write record: " ++ "disk full"))%string
           /\ write_calls w' = (write_calls disk_full_world + 3)%nat
           /\ exists new : list (list string),
                rows w' = rows disk_full_world ++ new /\ length new = 2%nat)
  /\ (create_err (env sample_world) = None
      /\ (forall j : nat,
            Z.of_nat j < TotalRecords ->
            write_err (env sample_world) (write_calls sample_world + j) = None)
      /\ exists w' : World,
           main sample_world = Some (tt, w')
           /\ stdout w'
              = (stdout sample_world ++ success_message "Fuzzy_dataset.csv")%string
           /\ exists new : list (list string),
                rows w' = rows sample_world ++ new
                /\ Z.of_nat (length new) = TotalRecords).
Proof.
  assert (Hbefore : forall j : nat,
             (j < 2)%nat ->
             write_err (env disk_full_world) (write_calls disk_full_world + j)
             = None).
  { intros [| [| j]] Hj; [reflexivity | reflexivity | lia]. }
  assert (Hk : Z.of_nat 2 < TotalRecords) by (unfold TotalRecords; lia).
  split; [| split].
  - split; [reflexivity |].
    apply (proj1 (proj2 (C10_failure_reporting no_file_world))).
    reflexivity.
  - split; [reflexivity |]. split; [exact Hk |].
    split; [reflexivity |]. split; [exact Hbefore |].
    apply (proj1 (proj2 (proj2 (C10_failure_reporting disk_full_world)))
             2%nat "disk full"%string eq_refl Hk eq_refl Hbefore).
  - split; [reflexivity |]. split; [intros j _; reflexivity |].
    apply (proj2 (proj2 (proj2 (C10_failure_reporting sample_world))) eq_refl).
    intros j _. reflexivity.
Defined.

(** * Further properties of the code *)

(** ** fluctuate *)

Lemma fluctuate_eq_signed (lo hi : Z) (w : World) :
  - 2 ^ 61 <= lo -> lo <= hi -> hi <= 2 ^ 61 ->
  fluctuate lo hi w = Some (lo + raw_at w 0 mod (hi - lo + 1), drawn 1 w).
Proof.
  intros H0 H1 H2. unfold fluctuate, bind.
  rewrite (int_wrap_small (hi - lo)) by lia.
  rewrite (int_wrap_small (hi - lo + 1)) by lia.
  rewrite Intn_eq by lia. unfold ret.
  pose proof (Z.mod_pos_bound (raw_at w 0) (hi - lo + 1)).
  rewrite int_wrap_small by lia. reflexivity.
Qed.

Lemma fluctuate_empty_range (lo hi : Z) (w : World) :
  - 2 ^ 61 <= hi -> hi < lo -> lo <= 2 ^ 61 ->
  fluctuate lo hi w = None.
Proof.
  intros H0 H1 H2. unfold fluctuate, bind.
  rewrite (int_wrap_small (hi - lo)) by lia.
  rewrite (int_wrap_small (hi - lo + 1)) by lia.
  unfold Intn.
  destruct (hi - lo + 1 <=? 0) eqn:E; [reflexivity |].
  apply Z.leb_gt in E. lia.
Qed.

(** A world whose random source always answers [c]. *)
Definition constant_world (c : Z) : World :=
  initial_world (mkEnv (fun _ => c) (fun _ => 0) (fun _ => 0)
                       None (fun _ => None)).

(** X1. For bounds of moderate size, [fluctuate(min, max)] with
    [min <= max] reads one value of the random source and returns a value
    of [min .. max], and every value of that range is returned for some
    state of the source; with [max < min] the call panics (the argument of
    [rand.Intn] is not positive). *)
Theorem X1_fluctuate_range_or_panic (lo hi : Z) (w : World) :
  - 2 ^ 61 <= lo <= 2 ^ 61 -> - 2 ^ 61 <= hi <= 2 ^ 61 ->
  (lo <= hi ->
   (exists v : Z,
      fluctuate lo hi w = Some (v, drawn 1 w) /\ lo <= v <= hi)
   /\ (forall v : Z,
         lo <= v <= hi ->
         exists w0 : World, fluctuate lo hi w0 = Some (v, drawn 1 w0)))
  /\ (hi < lo -> fluctuate lo hi w = None).
Proof.
  intros Hlo Hhi. split.
  - intros Hle. split.
    + eexists. split; [apply fluctuate_eq_signed; lia |].
      pose proof (Z.mod_pos_bound (raw_at w 0) (hi - lo + 1)). lia.
    + intros v Hv. exists (constant_world (v - lo)).
      rewrite fluctuate_eq_signed by lia.
      unfold raw_at. cbn [constant_world initial_world env rand_raw].
      rewrite Z.mod_small by lia. do 2 f_equal. lia.
  - intros Hlt. apply fluctuate_empty_range; lia.
Qed.

Lemma X1_fluctuate_range_or_panic_witness :
  (- 2 ^ 61 <= 80 <= 2 ^ 61 /\ - 2 ^ 61 <= 100 <= 2 ^ 61 /\ 80 <= 100
   /\ (exists v : Z,
         fluctuate 80 100 sample_world = Some (v, drawn 1 sample_world)
         /\ 80 <= v <= 100)
   /\ (forall v : Z,
         80 <= v <= 100 ->
         exists w0 : World, fluctuate 80 100 w0 = Some (v, drawn 1 w0)))
  /\ (- 2 ^ 61 <= 100 <= 2 ^ 61 /\ - 2 ^ 61 <= 80 <= 2 ^ 61 /\ 80 < 100
      /\ fluctuate 100 80 sample_world = None).
Proof.
  split.
  - split; [lia |]. split; [lia |]. split; [lia |].
    apply (proj1 (X1_fluctuate_range_or_panic 80 100 sample_world
                    ltac:(lia) ltac:(lia))).
    lia.
  - split; [lia |]. split; [lia |]. split; [lia |].
    apply (proj2 (X1_fluctuate_range_or_panic 100 80 sample_world
                    ltac:(lia) ltac:(lia))).
    lia.
Defined.

(** ** The payload values of normal records *)

(** A world whose first call returns a normal record of identifier
    0x200, with the value 85. *)
Definition range_world : World :=
  initial_world (sample_env [2 ^ 52; 2; 5] 0 0).

Definition range_world' : World :=
  set_normalMessages 1 (set_map_pos 1 (drawn 3 range_world)).

Example range_world_call :
  generateCANData range_world
  = Some ((0x200, [85; 0; 0; 0; 0; 0; 0; 0], "R"%string), range_world').
Proof. reflexivity. Qed.

Lemma dbc_ranges_functional (id lo hi lo' hi' : Z) :
  In (id, (lo, hi)) dbc_ranges -> In (id, (lo', hi')) dbc_ranges ->
  lo' = lo /\ hi' = hi.
Proof.
  cbn. intros H H'.
  repeat (destruct H as [H | H];
          [inversion H; subst;
           repeat (destruct H' as [H' | H'];
                   [inversion H'; subst; try lia; auto |]);
           try contradiction |]).
  contradiction.
Qed.

(** X2. In a record labelled "R" whose identifier is one of 0x200 ..
    0x204, the leading byte is [lo + d mod (hi - lo + 1)] for a value [d]
    read from the random source during this call, where [lo .. hi] is the
    range written in the table for that identifier; so it lies within
    [lo .. hi] (and within 40 .. 100 for all of them). *)
Theorem X2_range_byte_within_bounds
    (w : World) (r : Z * list Z * string) (w' : World) (lo hi : Z) :
  generateCANData w = Some (r, w') ->
  flag_of r = "R"%string ->
  In (id_of r, (lo, hi)) dbc_ranges ->
  lo <= value1 (data_of r) <= hi
  /\ 40 <= value1 (data_of r) <= 100
  /\ exists p : nat,
       (rand_pos w <= p < rand_pos w')%nat
       /\ value1 (data_of r) = lo + rand_raw (env w) p mod (hi - lo + 1).
Proof.
  intros Hcall Hflag Hin.
  destruct (normal_record_payload _ _ _ Hcall Hflag)
    as (_ & w1 & w2 & Hadv & Hpay & ->).
  pose proof (dbc_ranges_spec _ _ _ Hin) as Hb.
  destruct Hpay as [id Hid | id lo' hi' Hin' | ]; [lia | | lia].
  destruct (dbc_ranges_functional _ _ _ _ _ Hin Hin') as (-> & ->).
  unfold value1. cbn [nth data_of fst snd].
  pose proof (Z.mod_pos_bound (raw_at w1 0) (hi - lo + 1) ltac:(lia)).
  rewrite to_byte_small by lia.
  split; [lia |]. split; [lia |].
  exists (rand_pos w1). split.
  - pose proof (advanced_rand_pos _ _ Hadv). cbn. lia.
  - destruct (advanced_quiet _ _ Hadv) as (Henv & _).
    unfold raw_at. now rewrite Henv, Nat.add_0_r.
Qed.

Lemma X2_range_byte_within_bounds_witness :
  generateCANData range_world
  = Some ((0x200, [85; 0; 0; 0; 0; 0; 0; 0], "R"%string), range_world')
  /\ In (0x200, (80, 100)) dbc_ranges
  /\ 80 <= value1 [85; 0; 0; 0; 0; 0; 0; 0] <= 100
  /\ 40 <= value1 [85; 0; 0; 0; 0; 0; 0; 0] <= 100
  /\ exists p : nat,
       (rand_pos range_world <= p < rand_pos range_world')%nat
       /\ value1 [85; 0; 0; 0; 0; 0; 0; 0]
          = 80 + rand_raw (env range_world) p mod (100 - 80 + 1).
Proof.
  split; [reflexivity |].
  assert (Hin : In (0x200, (80, 100)) dbc_ranges) by (cbn; tauto).
  split; [exact Hin |].
  exact (X2_range_byte_within_bounds range_world _ _ 80 100
           range_world_call eq_refl Hin).
Defined.

(** Two bytes read high byte first. *)
Lemma lor_shiftl_8 (h l : Z) :
  0 <= h -> 0 <= l < 256 -> Z.lor (Z.shiftl h 8) l = h * 256 + l.
Proof.
  intros Hh Hl.
  rewrite Z.shiftl_mul_pow2 by lia. change (2 ^ 8) with 256.
  assert (Hdisj : Z.land (h * 256) l = 0).
  { apply Z.bits_inj'. intros n Hn.
    rewrite Z.land_spec, Z.bits_0.
    destruct (Z.ltb_spec n 8) as [Hlt | Hge].
    - replace (h * 256) with (h * 2 ^ 8) by reflexivity.
      rewrite Z.mul_pow2_bits_low by lia. reflexivity.
    - replace l with (l mod 2 ^ 8) by (apply Z.mod_small; exact Hl).
      rewrite Z.mod_pow2_bits_high by lia. apply andb_false_r. }
  rewrite <- (Z.lxor_lor _ _ Hdisj).
  symmetry. now apply Z.add_nocarry_lxor.
Qed.

(** X3. In a record labelled "R" of identifier 0x205 the first byte is
    9, 10 or 11 (the high byte of one draw of 2500 .. 3000) and the second
    is any byte (the low byte of another draw), so the two bytes, high
    byte first, read a value of 2304 .. 3071. *)
Theorem X3_engine_rpm_actual_range
    (w : World) (r : Z * list Z * string) (w' : World) :
  generateCANData w = Some (r, w') ->
  flag_of r = "R"%string ->
  id_of r = 0x205 ->
  9 <= nth 0 (data_of r) 0 <= 11
  /\ 0 <= nth 1 (data_of r) 0 <= 255
  /\ value2 (data_of r) = nth 0 (data_of r) 0 * 256 + nth 1 (data_of r) 0
  /\ 2304 <= value2 (data_of r) <= 3071.
Proof.
  intros Hcall Hflag Hid.
  destruct (normal_record_payload _ _ _ Hcall Hflag)
    as (_ & w1 & w2 & Hadv & Hpay & ->).
  destruct Hpay as [id Hid' | id lo hi Hin | ].
  - lia.
  - apply dbc_ranges_spec in Hin. lia.
  - unfold value2. cbn [nth data_of fst snd].
    pose proof (Z.mod_pos_bound (raw_at w1 0) 501 ltac:(lia)) as Ha.
    assert (Hhi : 9 <= Z.shiftr (2500 + raw_at w1 0 mod 501) 8 <= 11).
    { rewrite Z.shiftr_div_pow2 by lia. change (2 ^ 8) with 256.
      split.
      - apply Z.div_le_lower_bound; lia.
      - apply Z.lt_succ_r. apply Z.div_lt_upper_bound; lia. }
    rewrite (to_byte_small (Z.shiftr _ 8)) by lia.
    pose proof (to_byte_is_byte (Z.land (2500 + raw_at w1 1 mod 501) 255))
      as Hlo.
    unfold is_byte in Hlo.
    rewrite lor_shiftl_8 by lia.
    repeat split; lia.
Qed.

Lemma X3_engine_rpm_actual_range_witness :
  generateCANData sample_world
  = Some ((0x205, [9; 0; 0; 0; 0; 0; 0; 0], "R"%string), sample_world')
  /\ 9 <= nth 0 [9; 0; 0; 0; 0; 0; 0; 0] 0 <= 11
  /\ 0 <= nth 1 [9; 0; 0; 0; 0; 0; 0; 0] 0 <= 255
  /\ value2 [9; 0; 0; 0; 0; 0; 0; 0]
     = nth 0 [9; 0; 0; 0; 0; 0; 0; 0] 0 * 256 + nth 1 [9; 0; 0; 0; 0; 0; 0; 0] 0
  /\ 2304 <= value2 [9; 0; 0; 0; 0; 0; 0; 0] <= 3071.
Proof.
  split; [reflexivity |].
  exact (X3_engine_rpm_actual_range sample_world _ _
           sample_world_call eq_refl eq_refl).
Defined.

(** ** What a call reads from the random source *)

(** The coin is drawn exactly when both counters are below their targets
    ([&&] and [||] short-circuit). *)
Definition draws_coin (w : World) : bool :=
  (injectedMessages w <? InjectedCount) && (normalMessages w <? NormalCount).

(** The world after the test of the first branch. *)
Definition after_test (w : World) : World :=
  if draws_coin w then drawn 1 w else w.

(** The low bytes of the next [n] draws. *)
Fixpoint random_bytes (w : World) (n : nat) : list Z :=
  match n with
  | O => []
  | S n' => to_byte (raw_at w 0 mod 256) :: random_bytes (drawn 1 w) n'
  end.

Lemma random_bytes_nth (n : nat) :
  forall (w : World) (j : nat),
    (j < n)%nat -> nth j (random_bytes w n) 0 = to_byte (raw_at w j mod 256).
Proof.
  induction n as [| n IH]; intros w j Hj; [lia |].
  destruct j as [| j]; cbn [random_bytes nth]; [reflexivity |].
  rewrite IH by lia. now rewrite raw_at_drawn.
Qed.

Lemma random_bytes_length (n : nat) (w : World) :
  length (random_bytes w n) = n.
Proof.
  revert w. induction n as [| n IH]; intros w; cbn; auto.
Qed.

Lemma list_set_middle {A : Type} (pre post : list A) (x v : A) :
  list_set (pre ++ x :: post) (length pre) v = pre ++ v :: post.
Proof.
  induction pre as [| y pre IH]; cbn; [reflexivity | now rewrite IH].
Qed.

(** The filling loop overwrites the [n] cells from index [i] on with the
    low bytes of the next [n] draws. *)
Lemma fill_random_exact (n : nat) :
  forall (pre old post : list Z) (w : World),
    length old = n ->
    returns (fill_random n (Z.of_nat (length pre)) (pre ++ old ++ post)) w
      (fun data' w' =>
         data' = pre ++ random_bytes w n ++ post /\ w' = drawn n w).
Proof.
  induction n as [| n IH]; intros pre old post w Hlen.
  - destruct old; [| discriminate]. apply returns_ret. split; [reflexivity |].
    unfold drawn. rewrite Nat.add_0_r. now destruct w.
  - destruct old as [| x old]; [discriminate |].
    cbn [fill_random]. apply returns_bind, Intn_returns; [lia |].
    apply returns_bind, assign_returns.
    { rewrite !List.length_app. cbn [length]. lia. }
    rewrite Nat2Z.id. cbn [app]. rewrite list_set_middle.
    replace (Z.of_nat (length pre) + 1)
      with (Z.of_nat (length (pre ++ [to_byte (raw_at w 0 mod 256)])))
      by (rewrite List.length_app; cbn [length]; lia).
    replace (pre ++ to_byte (raw_at w 0 mod 256) :: old ++ post)
      with ((pre ++ [to_byte (raw_at w 0 mod 256)]) ++ old ++ post)
      by (now rewrite <- app_assoc).
    eapply returns_conseq.
    + apply IH. now injection Hlen.
    + intros data' w' (-> & ->). split.
      * now rewrite <- app_assoc.
      * now rewrite drawn_drawn.
Qed.

Lemma inject_test_exact (w : World) :
  returns inject_test w
    (fun c w1 => c = inject_decision w /\ w1 = after_test w).
Proof.
  unfold inject_test, inject_decision, after_test, draws_coin.
  apply returns_bind, returns_gets.
  destruct (injectedMessages w <? InjectedCount); cbn [andb].
  - apply returns_bind, returns_gets.
    destruct (normalMessages w >=? NormalCount) eqn:G;
      destruct (normalMessages w <? NormalCount) eqn:L; cbn [orb];
      rewrite Z.geb_leb in G;
      try (apply Z.leb_le in G; apply Z.ltb_lt in L; lia);
      try (apply Z.leb_gt in G; apply Z.ltb_ge in L; lia).
    + now apply returns_ret.
    + apply returns_bind, Float64_returns, returns_ret. split; reflexivity.
  - now apply returns_ret.
Qed.

Lemma after_test_advanced (w : World) : advanced w (after_test w).
Proof.
  unfold after_test. destruct (draws_coin w); [apply adv_rand |]; constructor.
Qed.

(** The call, branch by branch, with the exact final world. *)
Inductive exact_outcome (w : World) : Z * list Z * string -> World -> Prop :=
| exact_injected :
    inject_decision w = true ->
    exact_outcome w
      (raw_at (after_test w) 0 mod 250 + 0x206,
       random_bytes (drawn 1 (after_test w)) 8, "T"%string)
      (set_injectedMessages (int_wrap (injectedMessages w + 1))
         (drawn 9 (after_test w)))
| exact_normal (canID : Z) (data : list Z) (w2 : World) :
    inject_decision w = false ->
    normalMessages w < NormalCount ->
    nth_error (permute (map_raw (env w) (map_pos w)) dbc_keys)
              (Z.to_nat (raw_at (after_test w) 0 mod 8)) = Some canID ->
    dbc_payload (drawn 1 (set_map_pos (S (map_pos w)) (after_test w)))
                canID data w2 ->
    exact_outcome w (canID, data, "R"%string)
      (set_normalMessages (int_wrap (normalMessages w + 1)) w2)
| exact_empty :
    inject_decision w = false ->
    NormalCount <= normalMessages w ->
    exact_outcome w (0, zero_data, ""%string) w.

Lemma index_exact {A : Type} (l : list A) (i : Z) (w : World) :
  0 <= i < Z.of_nat (length l) ->
  returns (index l i) w
    (fun x w' => nth_error l (Z.to_nat i) = Some x /\ w' = w).
Proof.
  intros Hi. unfold index.
  destruct (i <? 0) eqn:E1; [apply Z.ltb_lt in E1; lia |].
  destruct (Z.of_nat (length l) <=? i) eqn:E2; [apply Z.leb_le in E2; lia |].
  cbn [orb]. destruct (nth_error l (Z.to_nat i)) as [x |] eqn:E.
  - apply returns_ret. auto.
  - apply nth_error_None in E. lia.
Qed.

Lemma after_test_fields (w : World) :
  env (after_test w) = env w
  /\ map_pos (after_test w) = map_pos w
  /\ normalMessages (after_test w) = normalMessages w
  /\ injectedMessages (after_test w) = injectedMessages w.
Proof.
  unfold after_test. destruct (draws_coin w); repeat split.
Qed.

Lemma generateCANData_exact (w : World) :
  returns generateCANData w (exact_outcome w).
Proof.
  unfold generateCANData. apply returns_bind.
  eapply returns_conseq; [apply inject_test_exact |].
  intros c w1 (-> & ->).
  destruct (after_test_fields w) as (Henv & Hmap & Hn & Hi).
  destruct (inject_decision w) eqn:D.
  - apply returns_bind, Intn_returns; [lia |].
    apply returns_bind.
    eapply returns_conseq;
      [apply (fill_random_exact 8 [] zero_data []); reflexivity |].
    intros data w2 (-> & ->).
    apply returns_bind, returns_gets, returns_bind, returns_modify, returns_ret.
    rewrite drawn_drawn. cbn [injectedMessages drawn set_rand_pos].
    rewrite Hi. cbn [app]. rewrite app_nil_r.
    pose proof (Z.mod_pos_bound (raw_at (after_test w) 0) 250 ltac:(lia)) as Hr.
    replace (768 - 518) with 250 in * by reflexivity.
    rewrite (int_wrap_small (raw_at (after_test w) 0 mod 250 + 518)) by lia.
    unfold to_uint32. rewrite Z.mod_small by lia.
    now apply exact_injected.
  - apply returns_bind, returns_gets. rewrite Hn.
    destruct (normalMessages w <? NormalCount) eqn:E.
    + apply Z.ltb_lt in E.
      apply returns_bind.
      unfold range_keys at 1.
      eexists _, _. split; [reflexivity |].
      rewrite Henv, Hmap.
      pose proof (dbc_keys_length _
                    (permute_perm dbc_keys (map_raw (env w) (map_pos w))))
        as Hlen.
      apply returns_bind, Intn_returns; [lia |].
      rewrite Hlen.
      apply returns_bind.
      eapply returns_conseq;
        [apply index_exact; rewrite Hlen; apply Z.mod_pos_bound; lia |].
      intros canID w3 (Hnth & ->).
      assert (Hkey : In canID dbc_keys).
      { eapply Permutation_in; [apply permute_perm |].
        eapply nth_error_In; eauto. }
      apply returns_bind.
      eapply returns_conseq; [apply call_DBC_returns; exact Hkey |].
      intros data w4 Hpay.
      apply returns_bind, returns_gets, returns_bind, returns_modify, returns_ret.
      destruct (advanced_counters _ _ (dbc_payload_advanced _ _ _ _ Hpay))
        as (Hn4 & _).
      rewrite Hn4. cbn [normalMessages drawn set_rand_pos set_map_pos].
      rewrite Hn.
      apply exact_normal; auto.
    + apply Z.ltb_ge in E. apply returns_ret.
      assert (Hsame : after_test w = w).
      { unfold after_test, draws_coin.
        destruct (Z.ltb_spec (normalMessages w) NormalCount); [lia |].
        now rewrite andb_false_r. }
      rewrite Hsame. now apply exact_empty.
Qed.

Lemma generateCANData_exact_inv
    (w : World) (r : Z * list Z * string) (w' : World) :
  generateCANData w = Some (r, w') -> exact_outcome w r w'.
Proof.
  intros E. exact (returns_inv _ _ _ _ _ (generateCANData_exact w) E).
Qed.

(** A world whose counters have both reached their targets. *)
Definition saturated_world : World :=
  set_normalMessages NormalCount
    (set_injectedMessages InjectedCount sample_world).

(** X4. A call that returns a record labelled "T" reads the random
    source at consecutive positions: first the coin, if both counters are
    below their targets and only then; next the identifier, which is
    0x206 plus that draw modulo 250; then the eight payload bytes, each
    the low byte of its own draw. It reads nine or ten values in all and
    does not iterate over the map. *)
Theorem X4_injected_record_draws
    (w : World) (r : Z * list Z * string) (w' : World) :
  generateCANData w = Some (r, w') ->
  flag_of r = "T"%string ->
  let p := (rand_pos w + (if draws_coin w then 1 else 0))%nat in
  id_of r = 0x206 + rand_raw (env w) p mod 250
  /\ length (data_of r) = 8%nat
  /\ (forall i : nat,
        (i < 8)%nat ->
        nth i (data_of r) 0 = rand_raw (env w) (p + 1 + i) mod 256)
  /\ rand_pos w' = (p + 9)%nat
  /\ map_pos w' = map_pos w.
Proof.
  intros Hcall Hflag p.
  assert (Hp : rand_pos (after_test w) = p).
  { unfold p, after_test. destruct (draws_coin w); cbn; lia. }
  destruct (after_test_fields w) as (Henv & Hmap & _ & _).
  destruct (generateCANData_exact_inv _ _ _ Hcall) as [D | |];
    cbn [flag_of snd] in Hflag; try discriminate.
  cbn [id_of data_of fst snd].
  split; [| split; [| split; [| split]]].
  - unfold raw_at. rewrite Henv, Hp, Nat.add_0_r. lia.
  - apply random_bytes_length.
  - intros i Hi. rewrite random_bytes_nth by assumption.
    rewrite raw_at_drawn. unfold raw_at, to_byte.
    rewrite Henv, Hp, Z.mod_mod by lia. f_equal. f_equal. lia.
  - cbn. lia.
  - cbn. exact Hmap.
Qed.

Lemma X4_injected_record_draws_witness :
  generateCANData inject_world
  = Some ((0x209, [1; 2; 3; 4; 5; 6; 7; 255], "T"%string), inject_world')
  /\ let p := (rand_pos inject_world
               + (if draws_coin inject_world then 1 else 0))%nat in
     0x209 = 0x206 + rand_raw (env inject_world) p mod 250
     /\ length [1; 2; 3; 4; 5; 6; 7; 255] = 8%nat
     /\ (forall i : nat,
           (i < 8)%nat ->
           nth i [1; 2; 3; 4; 5; 6; 7; 255] 0
           = rand_raw (env inject_world) (p + 1 + i) mod 256)
     /\ rand_pos inject_world' = (p + 9)%nat
     /\ map_pos inject_world' = map_pos inject_world.
Proof.
  split; [reflexivity |].
  exact (X4_injected_record_draws inject_world _ _ inject_world_call eq_refl).
Defined.

Ltac normal_fields :=
  cbn [map_pos rand_pos injectedMessages set_normalMessages drawn
       set_rand_pos set_map_pos];
  match goal with
  | Hp : rand_pos (after_test _) = _,
    Hinj : injectedMessages (after_test _) = _ |- _ =>
      rewrite ?Hp, ?Hinj; repeat split; lia
  end.

(** X5. A call that returns a record labelled "R" iterates over the map
    once and takes as identifier the key at position [d mod 8] of that
    iteration order, where [d] is the draw after the coin; the coin is
    drawn exactly when [injectedMessages] is below its target. The payload
    generator then reads two more values for identifier 0x205 and one for
    any other, and [injectedMessages] is left as it was. *)
Theorem X5_normal_record_draws
    (w : World) (r : Z * list Z * string) (w' : World) :
  generateCANData w = Some (r, w') ->
  flag_of r = "R"%string ->
  let p := (rand_pos w
            + (if (injectedMessages w <? InjectedCount)%Z then 1 else 0))%nat in
  nth_error (permute (map_raw (env w) (map_pos w)) dbc_keys)
            (Z.to_nat (rand_raw (env w) p mod 8)) = Some (id_of r)
  /\ map_pos w' = S (map_pos w)
  /\ rand_pos w' = (p + 1 + (if (id_of r =? 0x205)%Z then 2 else 1))%nat
  /\ injectedMessages w' = injectedMessages w.
Proof.
  intros Hcall Hflag p.
  destruct (after_test_fields w) as (Henv & Hmap & _ & Hinj).
  destruct (generateCANData_exact_inv _ _ _ Hcall)
    as [| canID data w2 D Hlt Hnth Hpay |];
    cbn [flag_of snd] in Hflag; try discriminate.
  assert (Hp : rand_pos (after_test w) = p).
  { unfold p, after_test, draws_coin.
    destruct (Z.ltb_spec (normalMessages w) NormalCount); [| lia].
    rewrite andb_true_r.
    destruct (injectedMessages w <? InjectedCount); cbn; lia. }
  cbn [id_of data_of fst snd].
  split.
  { unfold raw_at in Hnth. now rewrite Henv, Hp, Nat.add_0_r in Hnth. }
  destruct Hpay as [id Hid | id lo hi Hin | ].
  - assert (E : (id =? 517) = false) by (apply Z.eqb_neq; lia).
    rewrite E. normal_fields.
  - apply dbc_ranges_spec in Hin.
    assert (E : (id =? 517) = false) by (apply Z.eqb_neq; lia).
    rewrite E. normal_fields.
  - change (517 =? 517) with true. normal_fields.
Qed.

Lemma X5_normal_record_draws_witness :
  generateCANData sample_world
  = Some ((0x205, [9; 0; 0; 0; 0; 0; 0; 0], "R"%string), sample_world')
  /\ let p := (rand_pos sample_world
               + (if (injectedMessages sample_world <? InjectedCount)%Z
                  then 1 else 0))%nat in
     nth_error (permute (map_raw (env sample_world) (map_pos sample_world))
                        dbc_keys)
               (Z.to_nat (rand_raw (env sample_world) p mod 8)) = Some 0x205
     /\ map_pos sample_world' = S (map_pos sample_world)
     /\ rand_pos sample_world'
        = (p + 1 + (if (0x205 =? 0x205)%Z then 2 else 1))%nat
     /\ injectedMessages sample_world' = injectedMessages sample_world.
Proof.
  split; [reflexivity |].
  exact (X5_normal_record_draws sample_world _ _ sample_world_call eq_refl).
Defined.

Lemma generateCANData_saturated (w : World) :
  NormalCount <= normalMessages w ->
  InjectedCount <= injectedMessages w ->
  generateCANData w = Some ((0, zero_data, ""%string), w).
Proof.
  intros Hn Hi.
  destruct (generateCANData_exact w) as (r & w' & Hcall & Hout).
  rewrite Hcall.
  destruct Hout as [D | canID data w2 D Hlt _ _ | D Hge].
  - apply inject_decision_true in D. lia.
  - lia.
  - reflexivity.
Qed.

(** X6. Once both counters have reached their targets, every further call
    returns the record with identifier 0, eight zero bytes and the empty
    label, reads nothing from the random source and leaves the world
    exactly as it was; so do any number of calls in a row. *)
Theorem X6_calls_after_targets (w : World) (n : nat) :
  NormalCount <= normalMessages w ->
  InjectedCount <= injectedMessages w ->
  run_calls n w = Some (repeat (0, zero_data, ""%string) n, w).
Proof.
  intros Hn Hi. induction n as [| n IH]; [reflexivity |].
  cbn [run_calls repeat]. unfold bind.
  rewrite (generateCANData_saturated w Hn Hi).
  unfold bind in IH. rewrite IH. reflexivity.
Qed.

Lemma X6_calls_after_targets_witness :
  NormalCount <= normalMessages saturated_world
  /\ InjectedCount <= injectedMessages saturated_world
  /\ run_calls 5 saturated_world
     = Some (repeat (0, zero_data, ""%string) 5, saturated_world).
Proof.
  assert (Hn : NormalCount <= normalMessages saturated_world)
    by (cbn; unfold NormalCount; lia).
  assert (Hi : InjectedCount <= injectedMessages saturated_world)
    by (cbn; unfold InjectedCount; lia).
  split; [exact Hn |]. split; [exact Hi |].
  exact (X6_calls_after_targets saturated_world 5 Hn Hi).
Defined.

(** ** Reading a row back *)

Definition hex_digit_value (c : ascii) : Z :=
  let n := Z.of_nat (nat_of_ascii c) in
  if n <? 58 then n - 48 else n - 55.

(** One of the characters 0 .. 9 and A .. F. *)
Definition is_upper_hex (c : ascii) : bool :=
  let n := Z.of_nat (nat_of_ascii c) in
  ((48 <=? n) && (n <=? 57)) || ((65 <=? n) && (n <=? 70)).

Fixpoint all_upper_hex (s : string) : bool :=
  match s with
  | EmptyString => true
  | String c s' => is_upper_hex c && all_upper_hex s'
  end.

Fixpoint hex_from (acc : Z) (s : string) : Z :=
  match s with
  | EmptyString => acc
  | String c s' => hex_from (acc * 16 + hex_digit_value c) s'
  end.

Definition hex_value (s : string) : Z := hex_from 0 s.

(** The eight payload columns of a row. *)
Definition byte_columns (row : list string) : list string :=
  firstn 8 (skipn 3 row).

Lemma hex_char (d : Z) :
  0 <= d < 16 ->
  hex_digit_value (Fmt.digit_char d) = d
  /\ is_upper_hex (Fmt.digit_char d) = true.
Proof.
  intros Hd. unfold Fmt.digit_char, hex_digit_value, is_upper_hex.
  destruct (d <? 10) eqn:E.
  - apply Z.ltb_lt in E. rewrite nat_ascii_embedding by lia.
    replace (Z.of_nat (48 + Z.to_nat d)) with (48 + d) by lia.
    destruct (Z.ltb_spec (48 + d) 58); [| lia].
    split; [lia |].
    apply orb_true_iff. left. apply andb_true_iff.
    split; apply Z.leb_le; lia.
  - apply Z.ltb_ge in E. rewrite nat_ascii_embedding by lia.
    replace (Z.of_nat (55 + Z.to_nat d)) with (55 + d) by lia.
    destruct (Z.ltb_spec (55 + d) 58); [lia |].
    split; [lia |].
    apply orb_true_iff. right. apply andb_true_iff.
    split; apply Z.leb_le; lia.
Qed.

Lemma all_upper_hex_app (s1 s2 : string) :
  all_upper_hex (s1 ++ s2)%string = all_upper_hex s1 && all_upper_hex s2.
Proof.
  induction s1 as [| c s1 IH]; cbn; [reflexivity |].
  now rewrite IH, andb_assoc.
Qed.

Lemma hex_from_app (acc : Z) (s1 s2 : string) :
  hex_from acc (s1 ++ s2)%string = hex_from (hex_from acc s1) s2.
Proof.
  revert acc. induction s1 as [| c s1 IH]; intros acc; cbn; auto.
Qed.

Lemma zeros_upper_hex (n : nat) : all_upper_hex (Fmt.zeros n) = true.
Proof. induction n as [| n IH]; cbn; auto. Qed.

Lemma zeros_hex (n : nat) : hex_from 0 (Fmt.zeros n) = 0.
Proof. induction n as [| n IH]; cbn; auto. Qed.

(** The hexadecimal digits of [n], when the fuel covers them: they read
    back as [n], and there are no more of them than [n] needs. *)
Lemma digits_hex (fuel : nat) :
  forall (k : nat) (n : Z),
    (1 <= k <= fuel)%nat -> 0 <= n < 16 ^ Z.of_nat k ->
    all_upper_hex (Fmt.digits fuel 16 n) = true
    /\ hex_value (Fmt.digits fuel 16 n) = n
    /\ (1 <= String.length (Fmt.digits fuel 16 n) <= k)%nat
    /\ (String.length (Fmt.digits fuel 16 n) = 1%nat
        \/ 16 ^ Z.of_nat (String.length (Fmt.digits fuel 16 n) - 1) <= n).
Proof.
  induction fuel as [| fuel IH]; intros k n Hk Hn; [lia |].
  cbn [Fmt.digits].
  destruct (n <? 16) eqn:E.
  - apply Z.ltb_lt in E.
    destruct (hex_char n ltac:(lia)) as (Hv & Hu).
    unfold hex_value. cbn. rewrite Hv, Hu.
    split; [reflexivity |]. split; [reflexivity |]. split; [lia |].
    now left.
  - apply Z.ltb_ge in E.
    destruct k as [| [| k]]; [lia | cbn in Hn; lia |].
    assert (Hpow : 16 ^ Z.of_nat (S (S k)) = 16 * 16 ^ Z.of_nat (S k)).
    { rewrite (Nat2Z.inj_succ (S k)). apply Z.pow_succ_r. lia. }
    assert (Hq : 0 <= n / 16 < 16 ^ Z.of_nat (S k)).
    { split; [apply Z.div_pos; lia |].
      apply Z.div_lt_upper_bound; lia. }
    destruct (IH (S k) (n / 16) ltac:(lia) Hq) as (Hall & Hval & Hlen & Hmin).
    pose proof (Z.mod_pos_bound n 16 ltac:(lia)) as Hr.
    destruct (hex_char (n mod 16) Hr) as (Hv & Hu).
    pose proof (Z.div_mod n 16 ltac:(lia)) as Hdm.
    unfold hex_value in *.
    rewrite all_upper_hex_app, hex_from_app, length_app, Hall, Hval.
    cbn [all_upper_hex hex_from String.length]. rewrite Hv, Hu.
    split; [reflexivity |]. split; [lia |]. split; [lia |].
    right.
    replace (String.length (Fmt.digits fuel 16 (n / 16)) + 1 - 1)%nat
      with (S (String.length (Fmt.digits fuel 16 (n / 16)) - 1))
      by lia.
    rewrite Nat2Z.inj_succ, Z.pow_succ_r by lia.
    destruct Hmin as [H1 | Hge].
    + rewrite H1. cbn. lia.
    + lia.
Qed.

(** [%02X] of a byte: two characters that read back as the byte. *)
Lemma pad0_byte (b : Z) :
  is_byte b ->
  String.length (Fmt.pad0 2 16 b) = 2%nat
  /\ all_upper_hex (Fmt.pad0 2 16 b) = true
  /\ hex_value (Fmt.pad0 2 16 b) = b.
Proof.
  intros Hb. unfold is_byte in Hb.
  unfold Fmt.pad0, Fmt.sign, Fmt.unsigned.
  destruct (b <? 0) eqn:E; [apply Z.ltb_lt in E; lia |].
  rewrite Z.abs_eq by lia.
  assert (Hk : 0 <= b < 16 ^ Z.of_nat 2)
    by (change (Z.of_nat 2) with 2; lia).
  destruct (digits_hex 64 2 b ltac:(lia) Hk) as (Hall & Hval & Hlen & _).
  cbn [append String.length].
  unfold hex_value in *.
  rewrite length_app, all_upper_hex_app, hex_from_app.
  rewrite zeros_length, zeros_upper_hex, zeros_hex, Hall, Hval.
  repeat split. lia.
Qed.

(** [%X] of a [uint32]. *)
Lemma X_uint32 (n : Z) :
  0 <= n < 2 ^ 32 ->
  all_upper_hex (Fmt.X n) = true
  /\ hex_value (Fmt.X n) = n
  /\ (1 <= String.length (Fmt.X n) <= 8)%nat
  /\ (String.length (Fmt.X n) = 1%nat
      \/ 16 ^ Z.of_nat (String.length (Fmt.X n) - 1) <= n).
Proof.
  intros Hn. unfold Fmt.X, Fmt.sign, Fmt.unsigned.
  destruct (n <? 0) eqn:E; [apply Z.ltb_lt in E; lia |].
  rewrite Z.abs_eq by lia. cbn [append].
  apply (digits_hex 64 8); [lia |].
  change (Z.of_nat 8) with 8. lia.
Qed.

Ltac eight_bytes data Hlen Hbytes :=
  do 8 (destruct data as [| ? data]; [discriminate Hlen |]);
  destruct data; [| discriminate Hlen];
  repeat match goal with
         | H : Forall _ (_ :: _) |- _ => inversion_clear H
         end.

(** X7. The row of a record with a 32-bit identifier and eight payload
    bytes has twelve columns, and the record can be read back from it:
    the first column is the timestamp, the second reads in hexadecimal as
    the identifier, the third is "8", the next eight read in hexadecimal
    as the payload bytes in order, and the last is the label. *)
Theorem X7_csv_row_round_trip
    (ts : string) (canID : Z) (data : list Z) (flag : string) :
  0 <= canID < 2 ^ 32 ->
  length data = 8%nat ->
  Forall is_byte data ->
  let row := csv_record ts canID data flag in
  length row = 12%nat
  /\ nth 0 row ""%string = ts
  /\ hex_value (nth 1 row ""%string) = canID
  /\ nth 2 row ""%string = "8"%string
  /\ map hex_value (byte_columns row) = data
  /\ nth 11 row ""%string = flag.
Proof.
  intros Hid Hlen Hbytes.
  eight_bytes data Hlen Hbytes.
  unfold csv_record, byte_columns.
  cbn [app map nth length firstn skipn].
  split; [reflexivity |]. split; [reflexivity |].
  split; [apply (X_uint32 canID Hid) |].
  split; [reflexivity |]. split; [| reflexivity].
  repeat match goal with
         | H : is_byte ?b |- context [hex_value (Fmt.pad0 2 16 ?b)] =>
             rewrite (proj2 (proj2 (pad0_byte b H)))
         end.
  reflexivity.
Qed.

Lemma X7_csv_row_round_trip_witness :
  0 <= 0x205 < 2 ^ 32
  /\ length [9; 0; 0; 0; 0; 0; 0; 255] = 8%nat
  /\ Forall is_byte [9; 0; 0; 0; 0; 0; 0; 255]
  /\ let row := csv_record "1730361600.123456" 0x205
                  [9; 0; 0; 0; 0; 0; 0; 255] "R" in
     length row = 12%nat
     /\ nth 0 row ""%string = "1730361600.123456"%string
     /\ hex_value (nth 1 row ""%string) = 0x205
     /\ nth 2 row ""%string = "8"%string
     /\ map hex_value (byte_columns row) = [9; 0; 0; 0; 0; 0; 0; 255]
     /\ nth 11 row ""%string = "R"%string.
Proof.
  assert (Hb : Forall is_byte [9; 0; 0; 0; 0; 0; 0; 255])
    by (repeat (apply Forall_cons; [unfold is_byte; lia |]); apply Forall_nil).
  split; [lia |]. split; [reflexivity |]. split; [exact Hb |].
  apply (X7_csv_row_round_trip "1730361600.123456" 0x205
           [9; 0; 0; 0; 0; 0; 0; 255] "R" ltac:(lia) eq_refl Hb).
Defined.

(** X8. In such a row the identifier column is one to eight characters
    of 0 .. 9 and A .. F with no prefix and no padding (a column of more
    than one character denotes a number that needs them all), and every
    payload column is exactly two characters of 0 .. 9 and A .. F. *)
Theorem X8_csv_row_columns
    (ts : string) (canID : Z) (data : list Z) (flag : string) :
  0 <= canID < 2 ^ 32 ->
  length data = 8%nat ->
  Forall is_byte data ->
  let row := csv_record ts canID data flag in
  let id_column := nth 1 row ""%string in
  all_upper_hex id_column = true
  /\ (1 <= String.length id_column <= 8)%nat
  /\ (String.length id_column = 1%nat
      \/ 16 ^ Z.of_nat (String.length id_column - 1) <= canID)
  /\ Forall (fun s => String.length s = 2%nat /\ all_upper_hex s = true)
            (byte_columns row).
Proof.
  intros Hid Hlen Hbytes.
  eight_bytes data Hlen Hbytes.
  unfold csv_record, byte_columns.
  cbn [app map nth length firstn skipn].
  destruct (X_uint32 canID Hid) as (Hu & _ & Hl & Hmin).
  split; [exact Hu |]. split; [exact Hl |]. split; [exact Hmin |].
  repeat (apply Forall_cons;
          [match goal with
           | H : is_byte ?b |- context [Fmt.pad0 2 16 ?b] =>
               destruct (pad0_byte b H) as (L & U & _); split; assumption
           end |]).
  apply Forall_nil.
Qed.

Lemma X8_csv_row_columns_witness :
  0 <= 0x205 < 2 ^ 32
  /\ length [9; 0; 0; 0; 0; 0; 0; 255] = 8%nat
  /\ Forall is_byte [9; 0; 0; 0; 0; 0; 0; 255]
  /\ let row := csv_record "1730361600.123456" 0x205
                  [9; 0; 0; 0; 0; 0; 0; 255] "R" in
     let id_column := nth 1 row ""%string in
     all_upper_hex id_column = true
     /\ (1 <= String.length id_column <= 8)%nat
     /\ (String.length id_column = 1%nat
         \/ 16 ^ Z.of_nat (String.length id_column - 1) <= 0x205)
     /\ Forall (fun s => String.length s = 2%nat /\ all_upper_hex s = true)
               (byte_columns row).
Proof.
  assert (Hb : Forall is_byte [9; 0; 0; 0; 0; 0; 0; 255])
    by (repeat (apply Forall_cons; [unfold is_byte; lia |]); apply Forall_nil).
  split; [lia |]. split; [reflexivity |]. split; [exact Hb |].
  apply (X8_csv_row_columns "1730361600.123456" 0x205
           [9; 0; 0; 0; 0; 0; 0; 255] "R" ltac:(lia) eq_refl Hb).
Defined.

(** ** The rows of a run *)

(** The label of a row is its last column. *)
Definition row_flag (row : list string) : string := last row ""%string.


Lemma csv_record_flag (ts : string) (canID : Z) (data : list Z) (flag : string) :
  row_flag (csv_record ts canID data flag) = flag.
Proof.
  unfold row_flag, csv_record.
  rewrite app_assoc. apply last_last.
Qed.

Lemma csv_record_length (ts : string) (canID : Z) (data : list Z) (flag : string) :
  length data = 8%nat -> length (csv_record ts canID data flag) = 12%nat.
Proof.
  intros H. unfold csv_record.
  rewrite !List.length_app, length_map, H. reflexivity.
Qed.


Lemma outcome_data_length (w : World) (r : Z * list Z * string) (w' : World) :
  outcome w r w' -> length (data_of r) = 8%nat.
Proof.
  intros Hout.
  destruct Hout as [r data w1 w2 D Hadv Hr Hlen Hbytes Hw2
                   | canID data w1 w2 D Hlt Hkey Hadv Hpay
                   | w1 D Hge Hadv]; cbn [data_of fst snd].
  - exact Hlen.
  - destruct Hpay; reflexivity.
  - reflexivity.
Qed.

(** One iteration of the loop while records are still due: the world in
    which [writer.Write] is called, and the row it is given. *)
Lemma write_loop_step (n : nat) (w : World)
    (Q : option string -> World -> Prop) :
  counters_ok w ->
  normalMessages w + injectedMessages w < NormalCount + InjectedCount ->
  (forall (row : list string) (w2 : World),
      counters_ok w2 ->
      length row = 12%nat ->
      (row_flag row = "T"%string
       /\ injectedMessages w2 = injectedMessages w + 1
       /\ normalMessages w2 = normalMessages w
       \/ row_flag row = "R"%string
          /\ normalMessages w2 = normalMessages w + 1
          /\ injectedMessages w2 = injectedMessages w) ->
      env w2 = env w -> clock_pos w2 = S (clock_pos w) ->
      write_calls w2 = write_calls w -> rows w2 = rows w ->
      stdout w2 = stdout w ->
      returns (err <- writer_Write row ;;
               match err with
               | Some e => ret (Some ("could not write record: " ++ e)%string)
               | None => write_loop n
               end) w2 Q) ->
  returns (write_loop (S n)) w Q.
Proof.
  intros Hok Hroom HQ.
  cbn [write_loop]. apply returns_bind.
  eapply returns_conseq; [apply formatTimestamp_returns |].
  intros ts w1 ->. apply returns_bind.
  eapply returns_conseq; [apply generateCANData_outcome |].
  intros [[canID data] flag] w2 Hout.
  assert (Hok1 : counters_ok (set_clock_pos (S (clock_pos w)) w)) by exact Hok.
  destruct (outcome_counter_step _ _ _ Hok1 Hout) as (Hstep & Hok2 & Hq).
  pose proof (outcome_not_empty _ _ _ Hok1 Hroom Hout) as Hflag.
  pose proof (outcome_data_length _ _ _ Hout) as Hlen.
  destruct Hq as (q1 & q2 & q3 & q4 & q5).
  cbn [env clock_pos write_calls rows stdout set_clock_pos] in q1, q2, q3, q4, q5.
  cbn [flag_of data_of fst snd] in Hflag, Hlen.
  apply HQ; auto.
  - now apply csv_record_length.
  - rewrite csv_record_flag.
    destruct Hstep as [E Ei En | E En Ei | E _ _ _ _];
      cbn [flag_of snd normalMessages injectedMessages set_clock_pos] in *.
    + left. auto.
    + right. auto.
    + destruct Hflag as [E' | E']; rewrite E in E'; discriminate.
Qed.

(** What a stretch of the loop that wrote the rows [new] did to the
    world, apart from the counters. *)
Definition appended (w : World) (new : list (list string)) (calls : nat)
    (w' : World) : Prop :=
  env w' = env w /\ stdout w' = stdout w
  /\ rows w' = rows w ++ new
  /\ Forall (fun row => length row = 12%nat) new
  /\ write_calls w' = (write_calls w + calls)%nat
  /\ clock_pos w' = (clock_pos w + calls)%nat.

Lemma appended_cons (w w2 w' : World) (row : list string)
    (new : list (list string)) (calls : nat) :
  env w2 = env w -> stdout w2 = stdout w -> rows w2 = rows w ->
  write_calls w2 = write_calls w -> clock_pos w2 = S (clock_pos w) ->
  length row = 12%nat ->
  appended (set_rows (rows w2 ++ [row]) (set_write_calls (S (write_calls w2)) w2))
           new calls w' ->
  appended w (row :: new) (S calls) w'.
Proof.
  intros e1 e2 e3 e4 e5 Hrow (a1 & a2 & a3 & a4 & a5 & a6).
  cbn [env stdout rows write_calls clock_pos set_rows set_write_calls] in *.
  unfold appended.
  split; [congruence |]. split; [congruence |].
  split; [rewrite a3, e3, <- app_assoc; reflexivity |].
  split; [now constructor |].
  split; lia.
Qed.


(** The first failing write, at the [k]-th call from here, stops the loop:
    [k] rows were written, but [k + 1] records were generated and counted
    and the clock was read [k + 1] times. *)
Lemma write_loop_fails_counts (n : nat) :
  forall (w : World) (k : nat) (e : string),
    counters_ok w ->
    normalMessages w + injectedMessages w + Z.of_nat (S k)
      <= NormalCount + InjectedCount ->
    (k < n)%nat ->
    write_err (env w) (write_calls w + k) = Some e ->
    (forall j : nat, (j < k)%nat ->
                     write_err (env w) (write_calls w + j) = None) ->
    returns (write_loop n) w
      (fun err w' =>
         err = Some ("could not write record: " ++ e)%string
         /\ counters_ok w'
         /\ normalMessages w' + injectedMessages w'
            = normalMessages w + injectedMessages w + Z.of_nat (S k)
         /\ exists new : list (list string),
              appended w new (S k) w' /\ length new = k).
Proof.
  induction n as [| n IH]; intros w k e Hok Hroom Hk Hfail Hbefore; [lia |].
  apply write_loop_step; [exact Hok | lia |].
  intros row w2 Hok2 Hrow Hstep e1 e5 e4 e3 e2.
  apply returns_bind, writer_Write_returns.
  rewrite e1, e4.
  destruct k as [| k].
  - rewrite Nat.add_0_r in Hfail. rewrite Hfail.
    apply returns_ret. split; [reflexivity |].
    cbn [normalMessages injectedMessages set_write_calls].
    split; [exact Hok2 |].
    split; [destruct Hstep as [(_ & Ei & En) | (_ & En & Ei)]; lia |].
    exists []. split; [| reflexivity].
    unfold appended.
    cbn [env stdout rows write_calls clock_pos set_write_calls].
    rewrite app_nil_r. repeat split; auto; lia.
  - pose proof (Hbefore 0%nat ltac:(lia)) as H0.
    rewrite Nat.add_0_r in H0. rewrite H0.
    eapply returns_conseq.
    + apply (IH _ k e).
      * exact Hok2.
      * cbn [normalMessages injectedMessages set_rows set_write_calls].
        destruct Hstep as [(_ & Ei & En) | (_ & En & Ei)]; lia.
      * lia.
      * cbn [env write_calls set_rows set_write_calls].
        rewrite ?e1, ?e4, <- Hfail. f_equal. lia.
      * intros j Hj. cbn [env write_calls set_rows set_write_calls].
        rewrite ?e1, ?e4, <- (Hbefore (S j)) by lia. f_equal. lia.
    + cbn beta. intros err w' (Herr & Hok' & Hsum & new & Happ & Hlen).
      split; [exact Herr |]. split; [exact Hok' |].
      cbn [normalMessages injectedMessages set_rows set_write_calls] in Hsum.
      split; [destruct Hstep as [(_ & Ei & En) | (_ & En & Ei)]; lia |].
      exists (row :: new).
      split; [rewrite <- e4 in Happ; now apply (appended_cons w w2) |].
      cbn. lia.
Qed.



(** X10. When both counters start at zero and the first failing write is
    the one of row [k] (counted from 0, with [k] below [TotalRecords]),
    [generateDataset] returns "could not write record: ..." with exactly
    the [k] earlier rows appended, each of twelve columns; the record of
    the failed row was nevertheless generated and counted (the counters
    add up to [k + 1]) and the clock was read [k + 1] times. *)
Theorem X10_write_failure_state
    (filename : string) (w : World) (k : nat) (e : string) :
  normalMessages w = 0 -> injectedMessages w = 0 ->
  create_err (env w) = None ->
  Z.of_nat k < TotalRecords ->
  write_err (env w) (write_calls w + k) = Some e ->
  (forall j : nat, (j < k)%nat ->
                   write_err (env w) (write_calls w + j) = None) ->
  exists (w' : World) (new : list (list string)),
    generateDataset filename w
    = Some (Some ("could not write record: " ++ e)%string, w')
    /\ rows w' = rows w ++ new
    /\ length new = k
    /\ Forall (fun row => length row = 12%nat) new
    /\ normalMessages w' + injectedMessages w' = Z.of_nat k + 1
    /\ clock_pos w' = (clock_pos w + k + 1)%nat
    /\ write_calls w' = (write_calls w + k + 1)%nat
    /\ stdout w' = stdout w.
Proof.
  intros Hn Hi Hc Hk Hfail Hbefore.
  pose proof total_as_nat as Hnat. pose proof targets_sum as Hsum.
  destruct (write_loop_fails_counts (Z.to_nat TotalRecords) w k e
              (zero_counters_ok w Hn Hi) ltac:(lia) ltac:(lia) Hfail Hbefore)
    as (err & w' & Hloop & -> & _ & Htotal & new & Happ & Hlen).
  destruct Happ as (a1 & a2 & a3 & a4 & a5 & a6).
  exists w', new.
  rewrite (generateDataset_created filename w Hc).
  split; [exact Hloop |]. split; [exact a3 |]. split; [exact Hlen |].
  split; [exact a4 |].
  repeat split; try assumption; lia.
Qed.

Lemma X10_write_failure_state_witness :
  normalMessages disk_full_world = 0 /\ injectedMessages disk_full_world = 0
  /\ create_err (env disk_full_world) = None
  /\ Z.of_nat 2 < TotalRecords
  /\ write_err (env disk_full_world) (write_calls disk_full_world + 2)
     = Some "disk full"%string
  /\ (forall j : nat,
        (j < 2)%nat ->
        write_err (env disk_full_world) (write_calls disk_full_world + j)
        = None)
  /\ exists (w' : World) (new : list (list string)),
       generateDataset "Fuzzy_dataset.csv" disk_full_world
       = Some (Some ("could not write record: " ++ "disk full")%string, w')
       /\ rows w' = rows disk_full_world ++ new
       /\ length new = 2%nat
       /\ Forall (fun row => length row = 12%nat) new
       /\ normalMessages w' + injectedMessages w' = Z.of_nat 2 + 1
       /\ clock_pos w' = (clock_pos disk_full_world + 2 + 1)%nat
       /\ write_calls w' = (write_calls disk_full_world + 2 + 1)%nat
       /\ stdout w' = stdout disk_full_world.
Proof.
  assert (Hbefore : forall j : nat,
             (j < 2)%nat ->
             write_err (env disk_full_world) (write_calls disk_full_world + j)
             = None).
  { intros [| [| j]] Hj; [reflexivity | reflexivity | lia]. }
  assert (Hk : Z.of_nat 2 < TotalRecords) by (unfold TotalRecords; lia).
  split; [reflexivity |]. split; [reflexivity |]. split; [reflexivity |].
  split; [exact Hk |]. split; [reflexivity |]. split; [exact Hbefore |].
  exact (X10_write_failure_state "Fuzzy_dataset.csv" disk_full_world 2
           "disk full" eq_refl eq_refl eq_refl Hk eq_refl Hbefore).
Defined.

(** ** The number a timestamp denotes *)

Lemma formatTimestamp_eq (w : World) :
  let t := clock_ns (env w) (clock_pos w) in
  formatTimestamp w
  = Some ((Fmt.d (int_wrap (t / 10 ^ 9)) ++ "."
           ++ Fmt.pad0 6 10 (t mod 10 ^ 9 / 10 ^ 3))%string,
          set_clock_pos (S (clock_pos w)) w).
Proof.
  intros t.
  pose proof (Z.mod_pos_bound t (10 ^ 9) ltac:(lia)) as Hns.
  destruct (microseconds_eq (int_wrap (t / 10 ^ 9)) (t mod 10 ^ 9) Hns)
    as (Hmic & _).
  unfold formatTimestamp, bind, time_Now, ret.
  fold t. now rewrite Hmic.
Qed.

(** Microseconds since the epoch, split at the second. *)
Lemma micros_split (t : Z) :
  t / 10 ^ 3 = t / 10 ^ 9 * 10 ^ 6 + t mod 10 ^ 9 / 10 ^ 3.
Proof.
  rewrite (Z.div_mod t (10 ^ 9)) at 1 by lia.
  replace (10 ^ 9 * (t / 10 ^ 9)) with (t / 10 ^ 9 * 10 ^ 6 * 10 ^ 3) by ring.
  apply Z.div_add_l. lia.
Qed.

Lemma micros_range (t : Z) : 0 <= t mod 10 ^ 9 / 10 ^ 3 <= 999999.
Proof.
  pose proof (Z.mod_pos_bound t (10 ^ 9) ltac:(lia)) as Hns.
  split; [apply Z.div_pos; lia |].
  apply Z.lt_succ_r. apply Z.div_lt_upper_bound; lia.
Qed.

(** The timestamp of a reading at or after the epoch. *)
Lemma timestamp_after_epoch_parts (w : World) :
  let t := clock_ns (env w) (clock_pos w) in
  0 <= t -> t / 10 ^ 9 < 2 ^ 63 ->
  exists whole frac : string,
    formatTimestamp w
    = Some ((whole ++ "." ++ frac)%string, set_clock_pos (S (clock_pos w)) w)
    /\ all_digits whole = true
    /\ all_digits frac = true
    /\ String.length frac = 6%nat
    /\ decimal_value whole = t / 10 ^ 9
    /\ decimal_value frac = t mod 10 ^ 9 / 10 ^ 3.
Proof.
  intros t Ht Hsec.
  assert (Hq : 0 <= t / 10 ^ 9) by (apply Z.div_pos; lia).
  destruct (d_numeral (t / 10 ^ 9) ltac:(lia)) as (whole & Hd & _ & Ha & Hv).
  destruct (pad0_six _ (micros_range t)) as (Hfl & Hfa & Hfv).
  exists whole, (Fmt.pad0 6 10 (t mod 10 ^ 9 / 10 ^ 3)).
  split.
  - pose proof (formatTimestamp_eq w) as E. cbv zeta in E. fold t in E.
    rewrite E, (int_wrap_small (t / 10 ^ 9)) by lia.
    rewrite Hd. unfold Fmt.sign.
    destruct (Z.ltb_spec (t / 10 ^ 9) 0); [lia |]. reflexivity.
  - rewrite Z.abs_eq in Hv by lia. auto.
Qed.

(** X11. For a clock reading [t] (in nanoseconds) at or after the epoch,
    the timestamp is digits, a point and six digits, and read back as
    whole seconds and millionths it denotes exactly [t / 1000], the
    reading cut to microseconds. *)
Theorem X11_timestamp_reads_back (w : World) :
  let t := clock_ns (env w) (clock_pos w) in
  0 <= t -> t / 10 ^ 9 < 2 ^ 63 ->
  exists whole frac : string,
    formatTimestamp w
    = Some ((whole ++ "." ++ frac)%string, set_clock_pos (S (clock_pos w)) w)
    /\ all_digits whole = true
    /\ all_digits frac = true
    /\ String.length frac = 6%nat
    /\ decimal_value whole * 10 ^ 6 + decimal_value frac = t / 10 ^ 3.
Proof.
  intros t Ht Hsec.
  destruct (timestamp_after_epoch_parts w Ht Hsec)
    as (whole & frac & Hcall & Ha & Hfa & Hfl & Hv & Hfv).
  exists whole, frac. repeat split; auto.
  rewrite Hv, Hfv. symmetry. apply micros_split.
Qed.

Lemma X11_timestamp_reads_back_witness :
  0 <= clock_ns (env sample_world) (clock_pos sample_world)
  /\ clock_ns (env sample_world) (clock_pos sample_world) / 10 ^ 9 < 2 ^ 63
  /\ exists whole frac : string,
       formatTimestamp sample_world
       = Some ((whole ++ "." ++ frac)%string,
               set_clock_pos (S (clock_pos sample_world)) sample_world)
       /\ all_digits whole = true
       /\ all_digits frac = true
       /\ String.length frac = 6%nat
       /\ decimal_value whole * 10 ^ 6 + decimal_value frac
          = clock_ns (env sample_world) (clock_pos sample_world) / 10 ^ 3.
Proof.
  assert (H0 : 0 <= clock_ns (env sample_world) (clock_pos sample_world))
    by (cbn; lia).
  assert (H1 : clock_ns (env sample_world) (clock_pos sample_world) / 10 ^ 9
               < 2 ^ 63)
    by (apply Z.div_lt_upper_bound; cbn; lia).
  split; [exact H0 |]. split; [exact H1 |].
  exact (X11_timestamp_reads_back sample_world H0 H1).
Defined.

(** A world whose clock reads 1.999999999 s and then 2.000000001 s. *)
Definition ticking_world : World :=
  initial_world (mkEnv (fun _ => 0) (fun _ => 0)
                       (fun n => nth n [1999999999; 2000000001] 0)
                       None (fun _ => None)).

(** X12. Two successive calls read two successive clock readings; when
    these are at or after the epoch and the second is not earlier than
    the first, the second timestamp is not smaller than the first: its
    whole seconds are larger, or equal with a fraction that is not
    smaller. *)
Theorem X12_timestamps_follow_clock (w : World) :
  let t1 := clock_ns (env w) (clock_pos w) in
  let t2 := clock_ns (env w) (S (clock_pos w)) in
  0 <= t1 -> t1 <= t2 -> t2 / 10 ^ 9 < 2 ^ 63 ->
  exists (whole1 frac1 whole2 frac2 : string) (w1 w2 : World),
    formatTimestamp w = Some ((whole1 ++ "." ++ frac1)%string, w1)
    /\ formatTimestamp w1 = Some ((whole2 ++ "." ++ frac2)%string, w2)
    /\ all_digits whole1 = true /\ all_digits whole2 = true
    /\ all_digits frac1 = true /\ all_digits frac2 = true
    /\ String.length frac1 = 6%nat /\ String.length frac2 = 6%nat
    /\ (decimal_value whole1 < decimal_value whole2
        \/ decimal_value whole1 = decimal_value whole2
           /\ decimal_value frac1 <= decimal_value frac2).
Proof.
  intros t1 t2 H0 Hle Hsec.
  assert (Hsec1 : t1 / 10 ^ 9 < 2 ^ 63).
  { apply Z.le_lt_trans with (t2 / 10 ^ 9); [| exact Hsec].
    apply Z.div_le_mono; lia. }
  destruct (timestamp_after_epoch_parts w H0 Hsec1)
    as (whole1 & frac1 & Hcall1 & Ha1 & Hfa1 & Hfl1 & Hv1 & Hfv1).
  set (w1 := set_clock_pos (S (clock_pos w)) w) in *.
  assert (H0' : 0 <= clock_ns (env w1) (clock_pos w1)) by (cbn; fold t2; lia).
  assert (Hsec2 : clock_ns (env w1) (clock_pos w1) / 10 ^ 9 < 2 ^ 63)
    by exact Hsec.
  destruct (timestamp_after_epoch_parts w1 H0' Hsec2)
    as (whole2 & frac2 & Hcall2 & Ha2 & Hfa2 & Hfl2 & Hv2 & Hfv2).
  change (clock_ns (env w1) (clock_pos w1)) with t2 in Hv2, Hfv2.
  exists whole1, frac1, whole2, frac2, w1, (set_clock_pos (S (clock_pos w1)) w1).
  split; [exact Hcall1 |]. split; [exact Hcall2 |].
  repeat (split; [assumption |]).
  rewrite Hv1, Hfv1, Hv2, Hfv2. fold t1.
  assert (Hq : t1 / 10 ^ 9 <= t2 / 10 ^ 9) by (apply Z.div_le_mono; lia).
  destruct (Z.eq_dec (t1 / 10 ^ 9) (t2 / 10 ^ 9)) as [E | N]; [| left; lia].
  right. split; [exact E |].
  apply Z.div_le_mono; [lia |].
  pose proof (Z.div_mod t1 (10 ^ 9) ltac:(lia)).
  pose proof (Z.div_mod t2 (10 ^ 9) ltac:(lia)).
  lia.
Qed.

Lemma X12_timestamps_follow_clock_witness :
  let t1 := clock_ns (env ticking_world) (clock_pos ticking_world) in
  let t2 := clock_ns (env ticking_world) (S (clock_pos ticking_world)) in
  0 <= t1 /\ t1 <= t2 /\ t2 / 10 ^ 9 < 2 ^ 63
  /\ exists (whole1 frac1 whole2 frac2 : string) (w1 w2 : World),
       formatTimestamp ticking_world
       = Some ((whole1 ++ "." ++ frac1)%string, w1)
       /\ formatTimestamp w1 = Some ((whole2 ++ "." ++ frac2)%string, w2)
       /\ all_digits whole1 = true /\ all_digits whole2 = true
       /\ all_digits frac1 = true /\ all_digits frac2 = true
       /\ String.length frac1 = 6%nat /\ String.length frac2 = 6%nat
       /\ (decimal_value whole1 < decimal_value whole2
           \/ decimal_value whole1 = decimal_value whole2
              /\ decimal_value frac1 <= decimal_value frac2).
Proof.
  intros t1 t2.
  assert (H0 : 0 <= t1) by (cbn; lia).
  assert (H1 : t1 <= t2) by (cbn; lia).
  assert (H2 : t2 / 10 ^ 9 < 2 ^ 63)
    by (apply Z.div_lt_upper_bound; cbn; lia).
  split; [exact H0 |]. split; [exact H1 |]. split; [exact H2 |].
  exact (X12_timestamps_follow_clock ticking_world H0 H1 H2).
Defined.

(** A world whose clock reads one and a half seconds before the epoch. *)
Definition early_world : World :=
  initial_world (sample_env [] 0 (-1500000000)).

(** X13. For a clock reading [t] before the epoch, the whole seconds are
    rounded down and the fraction still counts up from them, so the
    timestamp is "-", the digits of [-(t / 10^9)], a point and the six
    digits of the microseconds past that second. Read as a negative
    decimal number it is never later than the reading, and it equals the
    reading cut to microseconds only when the fraction is zero. *)
Theorem X13_timestamp_before_epoch (w : World) :
  let t := clock_ns (env w) (clock_pos w) in
  t < 0 -> - 2 ^ 63 <= t / 10 ^ 9 ->
  exists whole frac : string,
    formatTimestamp w
    = Some (("-" ++ whole ++ "." ++ frac)%string,
            set_clock_pos (S (clock_pos w)) w)
    /\ all_digits whole = true
    /\ all_digits frac = true
    /\ String.length frac = 6%nat
    /\ decimal_value whole = - (t / 10 ^ 9)
    /\ decimal_value frac = t mod 10 ^ 9 / 10 ^ 3
    /\ - (decimal_value whole * 10 ^ 6 + decimal_value frac)
       = t / 10 ^ 3 - 2 * decimal_value frac.
Proof.
  intros t Ht Hsec.
  assert (Hq : t / 10 ^ 9 < 0) by (apply Z.div_lt_upper_bound; lia).
  destruct (d_numeral (t / 10 ^ 9) ltac:(lia)) as (whole & Hd & _ & Ha & Hv).
  destruct (pad0_six _ (micros_range t)) as (Hfl & Hfa & Hfv).
  exists whole, (Fmt.pad0 6 10 (t mod 10 ^ 9 / 10 ^ 3)).
  split.
  - pose proof (formatTimestamp_eq w) as E. cbv zeta in E. fold t in E.
    rewrite E, (int_wrap_small (t / 10 ^ 9)) by lia.
    rewrite Hd. unfold Fmt.sign.
    destruct (Z.ltb_spec (t / 10 ^ 9) 0); [| lia].
    now rewrite append_assoc.
  - rewrite Z.abs_neq in Hv by lia.
    repeat (split; [assumption |]).
    rewrite Hv, Hfv, (micros_split t). lia.
Qed.

Lemma X13_timestamp_before_epoch_witness :
  let t := clock_ns (env early_world) (clock_pos early_world) in
  t < 0 /\ - 2 ^ 63 <= t / 10 ^ 9
  /\ exists whole frac : string,
       formatTimestamp early_world
       = Some (("-" ++ whole ++ "." ++ frac)%string,
               set_clock_pos (S (clock_pos early_world)) early_world)
       /\ all_digits whole = true
       /\ all_digits frac = true
       /\ String.length frac = 6%nat
       /\ decimal_value whole = - (t / 10 ^ 9)
       /\ decimal_value frac = t mod 10 ^ 9 / 10 ^ 3
       /\ - (decimal_value whole * 10 ^ 6 + decimal_value frac)
          = t / 10 ^ 3 - 2 * decimal_value frac.
Proof.
  intros t.
  assert (H0 : t < 0) by (cbn; lia).
  assert (H1 : - 2 ^ 63 <= t / 10 ^ 9)
    by (apply Z.div_le_lower_bound; cbn; lia).
  split; [exact H0 |]. split; [exact H1 |].
  exact (X13_timestamp_before_epoch early_world H0 H1).
Defined.
